(** * The ÅOP calculator core (src/app/core/calc/calc.js)

    A shallow embedding of the financial engine of the repository: the
    annuity factor [apf], the facade's [pmt], the cashflow valuations [NPV]
    and [dNPV], the Newton solver [IRR] and the schedule generator
    [cashflow], followed by the properties of the specification that were
    checked against them.

    JavaScript numbers are IEEE 754 binary64 values.  The functions are
    written once over an interface of the arithmetic they use and are read
    at two instances: Rocq's primitive binary64 floats, which is the
    arithmetic the program runs on, and the real numbers, which is the exact
    arithmetic the closed forms of the specification are stated in. *)

From Stdlib Require Import ZArith List Bool Arith Lia Floats Reals Lra.
Import ListNotations.

Set Implicit Arguments.
Set Warnings "-inexact-float".

(** * Part I: the program *)

(** ** The arithmetic of the program *)

Declare Scope js_scope.
Delimit Scope js_scope with js.

(** The operators of calc.js that are meaningful in any arithmetic.  Period
    counts and array indices are integers (data model of the schedule
    options), so [Math.pow] is only ever called at an integer exponent. *)
Class Arith (num : Type) : Type := MkArith {
  js_add : num -> num -> num;
  js_sub : num -> num -> num;
  js_mul : num -> num -> num;
  js_div : num -> num -> num;
  js_neg : num -> num;
  (** [a < b]; the source's [a > b] is [js_ltb b a]. *)
  js_ltb : num -> num -> bool;
  (** [a <= b]; the source's [a >= b] is [js_leb b a]. *)
  js_leb : num -> num -> bool;
  (** An integer literal, or an integer used as a number. *)
  js_int : Z -> num;
  Math_pow : num -> Z -> num
}.

(** What only a JavaScript number has: the not-a-number value, the decimal
    literals of the source that are not integers, and the rounding and
    absolute value primitives. *)
Class JSNumber (num : Type) : Type := MkJSNumber {
  js_arith :: Arith num;
  NaN : num;
  Math_abs : num -> num;
  Math_ceil : num -> num;
  (** the literal [0.01] *)
  lit_0_01 : num;
  (** the literal [1e-10] *)
  lit_1e_10 : num;
  (** the literal [0.1] *)
  lit_0_1 : num
}.

Notation "x + y" := (js_add x y) : js_scope.
Notation "x - y" := (js_sub x y) : js_scope.
Notation "x * y" := (js_mul x y) : js_scope.
Notation "x / y" := (js_div x y) : js_scope.
Notation "- x" := (js_neg x) : js_scope.
Notation "x <? y" := (js_ltb x y) : js_scope.
Notation "x >? y" := (js_ltb y x) : js_scope.
Notation "x <=? y" := (js_leb x y) : js_scope.
Notation "x >=? y" := (js_leb y x) : js_scope.
Notation "# z" := (js_int z) (at level 1, format "# z") : js_scope.

(** ** Binary64, the arithmetic the program runs on *)

Module Binary64.

(** A positive integer as a binary64 value, rounded to nearest even.
    Below 2^63 the primitive conversion does it.  From 2^63 on, the 63
    leading bits are converted, the last of them made 1 when a bit below
    them is set (so that the rounding to 53 bits sees what was cut), and
    the result is scaled back by the power of two that was cut. *)
Definition of_pos (p : positive) : float :=
  let z := Zpos p in
  if (z <? 2 ^ 63)%Z then PrimFloat.of_uint63 (Uint63.of_Z z)
  else
    let k := (Z.log2 z - 62)%Z in
    let hi := Z.shiftr z k in
    let sticky := if (Z.land z (2 ^ k - 1) =? 0)%Z then 0%Z else 1%Z in
    Z.ldexp (PrimFloat.of_uint63 (Uint63.of_Z (Z.lor hi sticky))) k.

(** An integer as a binary64 value (exact below 2^53, rounded to nearest
    above, as a numeric literal is). *)
Definition of_Z (z : Z) : float :=
  match z with
  | Z0 => PrimFloat.zero
  | Zpos p => of_pos p
  | Zneg p => PrimFloat.opp (of_pos p)
  end.

(** [x] multiplied [k] times into 1. *)
Fixpoint pow_nat (x : float) (k : nat) : float :=
  match k with
  | O => PrimFloat.one
  | S k' => PrimFloat.mul (pow_nat x k') x
  end.

(** [Math.pow] at an integer exponent.  ECMAScript fixes [pow(x, 0) = 1]
    and leaves the rest implementation-approximated; it is modelled here
    by repeated binary64 multiplication, which is the exact value
    whenever the power and the partial products are representable (every
    concrete evaluation below that depends on it uses base 1 or base 2). *)
Definition pow (x : float) (z : Z) : float :=
  match z with
  | Z0 => PrimFloat.one
  | Zpos p => pow_nat x (Pos.to_nat p)
  | Zneg p => PrimFloat.div PrimFloat.one (pow_nat x (Pos.to_nat p))
  end.

(** [Math.ceil]: the least integer not below [x]; NaN, the infinities,
    the zeros and the integers are returned unchanged, and a value in
    (-1, 0) gives -0. *)
Definition ceil (x : float) : float :=
  match Prim2SF x with
  | S754_finite s m e =>
      if (0 <=? e)%Z then x
      else
        let d := (2 ^ (- e))%Z in
        let q := (Zpos m / d)%Z in
        if (Zpos m mod d =? 0)%Z then x
        else if s then PrimFloat.opp (of_Z q)
        else of_Z (q + 1)
  | _ => x
  end.

#[global] Instance arith : Arith float := {|
  js_add := PrimFloat.add;
  js_sub := PrimFloat.sub;
  js_mul := PrimFloat.mul;
  js_div := PrimFloat.div;
  js_neg := PrimFloat.opp;
  js_ltb := PrimFloat.ltb;
  js_leb := PrimFloat.leb;
  js_int := of_Z;
  Math_pow := pow
|}.

#[global] Instance number : JSNumber float := {|
  js_arith := arith;
  NaN := PrimFloat.nan;
  Math_abs := PrimFloat.abs;
  Math_ceil := ceil;
  lit_0_01 := 0.01%float;
  lit_1e_10 := 1e-10%float;
  lit_0_1 := 0.1%float
|}.

End Binary64.

(** ** Exact arithmetic, the reading of the closed forms *)

Module Exact.

#[global] Instance arith : Arith R := {|
  js_add := Rplus;
  js_sub := Rminus;
  js_mul := Rmult;
  js_div := Rdiv;
  js_neg := Ropp;
  js_ltb := fun a b => if Rlt_dec a b then true else false;
  js_leb := fun a b => if Rle_dec a b then true else false;
  js_int := IZR;
  Math_pow := powerRZ
|}.

End Exact.

(** ** Arrays *)

(** [Array.prototype.reduce]: the callback receives the accumulator, the
    current element and its index. *)
Fixpoint reduce_from {A B : Type} (f : B -> A -> nat -> B) (acc : B) (i : nat)
    (l : list A) : B :=
  match l with
  | [] => acc
  | x :: t => reduce_from f (f acc x i) (S i) t
  end.

(** [reduce] called without an initial value: the first element is the
    initial accumulator and the callback is first called at index 1; on
    an empty array a TypeError is thrown ([None]). *)
Definition reduce {A : Type} (f : A -> A -> nat -> A) (l : list A) : option A :=
  match l with
  | [] => None
  | x :: t => Some (reduce_from f x 1 t)
  end.

(** [Array.prototype.map] with the index passed to the callback. *)
Fixpoint map_from {A B : Type} (f : A -> nat -> B) (i : nat) (l : list A) : list B :=
  match l with
  | [] => []
  | x :: t => f x i :: map_from f (S i) t
  end.

Definition mapi {A B : Type} (f : A -> nat -> B) (l : list A) : list B :=
  map_from f 0 l.

(** [Array.prototype.some] is [existsb]; [find] is [List.find]. *)
Definition some {A : Type} (f : A -> bool) (l : list A) : bool := existsb f l.

(** A thrown exception is [None]; [bind] sequences the calls that may throw. *)
Definition bind {A B : Type} (m : option A) (k : A -> option B) : option B :=
  match m with
  | Some a => k a
  | None => None
  end.

Notation "x <- m ;; k" := (bind m (fun x => k))
  (at level 61, m at next level, right associativity).

(** ** Time-value primitives and cashflow valuation *)

Section Valuation.

Context {num : Type} {AR : Arith num}.
Local Open Scope js_scope.

(** [apf], calc.js line 62. *)
Definition apf (rate : num) (n : Z) : num :=
  if rate >? #0 then rate / (#1 - Math_pow (#1 + rate) (- n)%Z)
  else if (n >? 0)%Z then #1 / #n else #1.

(** The facade's [pmt], calc.js line 40. *)
Definition pmt (p rate : num) (n : Z) : num := p * apf rate n.

(** [NPV], calc.js line 71. *)
Definition NPV (cashflow : list num) (rate : num) : option num :=
  let r := rate + #1 in
  reduce (fun NPVn CFn i =>
            if (0 <? i)%nat then NPVn + CFn / Math_pow r (Z.of_nat i) else CFn)
         cashflow.

(** [dNPV], calc.js line 81. *)
Definition dNPV (cashflow : list num) (rate : num) : option num :=
  let r := rate + #1 in
  reduce (fun NPVn CFn i =>
            if (0 <? i)%nat
            then NPVn - #(Z.of_nat i) * CFn / Math_pow r (Z.of_nat (i + 1))
            else #0)
         cashflow.

End Valuation.

(** ** The rate solver *)

Section Solver.

Context {num : Type} {JS : JSNumber num}.
Local Open Scope js_scope.

(** The end-of-iteration threshold and the iteration cap of [IRR]. *)
Definition epsMax : num := lit_1e_10.

Definition iterMax : nat := 50.

(** The [for] loop of [IRR] with [left] iterations still to run:
    [Some (Some r)] is [return r] from inside the loop and [Some None] is
    the loop running to its end. *)
Fixpoint newton (cashflow : list num) (left : nat) (irr : num)
    : option (option num) :=
  match left with
  | O => Some None
  | S left' =>
      npv <- NPV cashflow irr ;;
      d <- dNPV cashflow irr ;;
      let irr2 := irr - npv / d in
      let dirr := Math_abs (irr2 - irr) in
      if (dirr <? epsMax) || (Math_abs npv <? epsMax)
      then Some (Some irr2)
      else newton cashflow left' irr2
  end.

(** [IRR], calc.js line 95.  [initialguess] is [None] when the argument
    is [undefined]. *)
Definition IRR (cashflow : list num) (initialguess : option num) : option num :=
  if some (fun CFn => CFn >? #0) cashflow && some (fun CFn => CFn <? #0) cashflow
  then
    let irr := match initialguess with None => lit_0_1 | Some g => g end in
    r <- newton cashflow iterMax irr ;;
    match r with
    | Some irr => Some irr
    | None => Some NaN
    end
  else Some NaN.

End Solver.

(** ** The schedule generator *)

(** A period block of the options ([opt.periods[k]]).  [periods] is the
    number of periods of the block, an integer in the data model. *)
Record Period (num : Type) : Type := MkPeriod {
  periods : Z;
  interest : num;
  payment : num;
  fee : num;
  usePayment : bool
}.

(** The options object; [opt_periods] is [None] when [opt.periods] is
    missing. *)
Record Options (num : Type) : Type := MkOptions {
  costs : num;
  opt_periods : option (list (Period num));
  includeCost : bool;
  roundedPayment : bool
}.

(** An element of [loanPeriods]: the fields [interest], [fee], [payment]
    and [end]. *)
Record LoanPeriod (num : Type) : Type := MkLoanPeriod {
  lp_interest : num;
  lp_fee : num;
  lp_payment : num;
  lp_end : Z
}.

(** An element of [paymentplan]: the fields [i], [repayed], [fee],
    [interest], [payment] and [balance]. *)
Record PlanEntry (num : Type) : Type := MkPlanEntry {
  pe_i : nat;
  pe_repayed : num;
  pe_fee : num;
  pe_interest : num;
  pe_payment : num;
  pe_balance : num
}.

(** The object [cashflow] returns; [sc_cashflow] is its field
    [cashflow]. *)
Record Schedule (num : Type) : Type := MkSchedule {
  duration : nat;
  principal : num;
  totalpayed : num;
  totalinterest : num;
  paymentplan : list (PlanEntry num);
  sc_cashflow : list num
}.

(** The variables of the simulation loop. *)
Record LoopState (num : Type) : Type := MkLoopState {
  ls_i : nat;
  ls_balance : num;
  ls_plan : list (PlanEntry num)
}.

Section Generator.

Context {num : Type} {JS : JSNumber num}.
Local Open Scope js_scope.

(** The options used when the caller passes none. *)
Definition default_options : Options num :=
  {| costs := #1800;
     opt_periods := Some [ {| periods := 24; interest := #10; payment := #0;
                              fee := #25; usePayment := false |} ];
     includeCost := true;
     roundedPayment := false |}.

(** An array read; an index outside the array reads [undefined], which
    every arithmetic operator turns into [NaN]. *)
Definition at_ (l : list num) (index : nat) : num := nth index l NaN.

(** The compounding factor of a block,
    [Math.pow(1 + interest / 100 / ppy, periods)]. *)
Definition growth (ppy : num) (period : Period num) : num :=
  Math_pow (#1 + interest period / #100 / ppy) (periods period).

Section Splitting.

Variables (ppy : num) (pers : list (Period num)).

Definition apfs : list num :=
  map (fun period => apf (interest period / #100 / ppy) (periods period)) pers.

Definition deltaPrincipals : list num :=
  mapi (fun period index =>
          if usePayment period then payment period / at_ apfs index else #(-1))
       pers.

(** The first [for ... in] loop, over the indices still to visit. *)
Fixpoint forward (indices : list nat) (principalsForw : list num) : list num :=
  match indices with
  | [] => principalsForw
  | index :: rest =>
      let dP := at_ deltaPrincipals index in
      if dP <? #0 then principalsForw
      else
        match nth_error pers index with
        | Some period =>
            let P := (at_ principalsForw index - dP) * growth ppy period in
            forward rest (principalsForw ++ [P])
        | None => principalsForw
        end
  end.

(** The second [for ... in] loop, which walks the blocks from the last. *)
Fixpoint backward (indices : list nat) (principalsRev : list num) : list num :=
  match indices with
  | [] => principalsRev
  | index :: rest =>
      let indexRev := (length deltaPrincipals - index - 1)%nat in
      let dP := at_ deltaPrincipals indexRev in
      if dP <? #0 then principalsRev
      else
        match nth_error pers indexRev with
        | Some period =>
            let P := dP + at_ principalsRev 0 / growth ppy period in
            backward rest (P :: principalsRev)
        | None => principalsRev
        end
  end.

Definition principals (principal : num) : list num :=
  let keys := seq 0 (length deltaPrincipals) in
  forward keys [principal] ++ backward keys [#0].

(** The payment of a block that is not fixed, before rounding. *)
Definition computedPayment (principal : num) (period : Period num)
    (index : nat) : num :=
  (at_ (principals principal) index
   - at_ (principals principal) (index + 1) / growth ppy period)
  * at_ apfs index.

(** The callback of the [map] that builds [loanPeriods]; [end_] is the
    running sum held in the variable [end]. *)
Fixpoint resolve (rounded : bool) (principal : num) (index : nat) (end_ : Z)
    (l : list (Period num)) : list (LoanPeriod num) :=
  match l with
  | [] => []
  | period :: rest =>
      let end_ := (end_ + periods period)%Z in
      let payment0 :=
        if usePayment period then payment period
        else computedPayment principal period index in
      let payment1 :=
        if negb (usePayment period) && rounded then Math_ceil payment0
        else payment0 in
      {| lp_interest := interest period / #100 / ppy;
         lp_fee := fee period;
         lp_payment := payment1;
         lp_end := end_ |} :: resolve rounded principal (S index) end_ rest
  end.

End Splitting.

Definition loanPeriods (ppy : num) (opt : Options num) (principal : num)
    : list (LoanPeriod num) :=
  match opt_periods opt with
  | Some pers => resolve ppy pers (roundedPayment opt) principal 0 0 pers
  | None => []
  end.

Section Simulation.

Variables (opt : Options num) (loan : list (LoanPeriod num)).

(** The test of the [while] loop. *)
Definition running (st : LoopState num) : bool :=
  (ls_i st <=? 180)%nat && (ls_balance st >=? lit_0_01).

(** One pass through the body of the [while] loop; [None] is [break]. *)
Definition body (st : LoopState num) : option (LoopState num) :=
  let i := ls_i st in
  let balance := ls_balance st in
  match find (fun period => (Z.of_nat i <? lp_end period)%Z) loan with
  | None => None
  | Some per =>
      let monthlyPayment := lp_payment per in
      let monthlyinterest := lp_interest per * balance in
      let monthlyfee := lp_fee per in
      let paym := monthlyPayment + monthlyfee in
      let repayment := monthlyPayment - monthlyinterest in
      let first := (i =? 0)%nat && negb (includeCost opt) in
      let paym := if first then paym + costs opt else paym in
      let monthlyfee := if first then monthlyfee + costs opt else monthlyfee in
      let i := S i in
      if balance >? repayment then
        let balance := balance - repayment in
        Some {| ls_i := i;
                ls_balance := balance;
                ls_plan := ls_plan st ++
                  [ {| pe_i := i; pe_repayed := repayment; pe_fee := monthlyfee;
                       pe_interest := monthlyinterest; pe_payment := paym;
                       pe_balance := balance |} ] |}
      else
        Some {| ls_i := i;
                ls_balance := #0;
                ls_plan := ls_plan st ++
                  [ {| pe_i := i; pe_repayed := balance; pe_fee := monthlyfee;
                       pe_interest := monthlyinterest;
                       pe_payment := balance + monthlyinterest + monthlyfee;
                       pe_balance := #0 |} ] |}
  end.

(** The [while] loop, run for at most [fuel] passes.  [simulate_exits]
    below shows that 181 passes always reach the loop's own exit, so
    that the fuel never decides the result. *)
Fixpoint simulate (fuel : nat) (st : LoopState num) : LoopState num :=
  match fuel with
  | O => st
  | S fuel' =>
      if running st then
        match body st with
        | Some st' => simulate fuel' st'
        | None => st
        end
      else st
  end.

End Simulation.

(** [options || { ... }] *)
Definition options_or_default (options : option (Options num)) : Options num :=
  match options with
  | Some o => o
  | None => default_options
  end.

(** [p + (opt.includeCost ? opt.costs : 0)] *)
Definition principal_of (p : num) (opt : Options num) : num :=
  p + (if includeCost opt then costs opt else #0).

(** The variables [i], [balance] and [paymentplan] when the [while] loop
    is left, the loop being given [fuel] passes. *)
Definition final_state (fuel : nat) (p ppy : num) (options : option (Options num))
    : LoopState num :=
  let opt := options_or_default options in
  let principal := principal_of p opt in
  simulate opt (loanPeriods ppy opt principal) fuel
           {| ls_i := 0; ls_balance := principal; ls_plan := [] |}.

Definition enough_fuel : nat := 181.

(** [cashflow], calc.js line 135.  [options] is [None] when the caller
    passes none. *)
Definition cashflow (p ppy : num) (options : option (Options num)) : Schedule num :=
  let opt := options_or_default options in
  let principal := principal_of p opt in
  let final := final_state enough_fuel p ppy options in
  let paymentplan := ls_plan final in
  {| duration := ls_i final;
     principal := principal;
     totalpayed :=
       reduce_from (fun total plan _ => total + pe_payment plan) #0 0 paymentplan;
     totalinterest :=
       reduce_from (fun total plan _ => total + pe_interest plan) #0 0 paymentplan;
     paymentplan := paymentplan;
     sc_cashflow := [- p] ++ map (fun plan => pe_payment plan) paymentplan |}.

End Generator.

(** ** The effective rate, the facade and the views' recalculation *)

(** [$scope.loanDetails] of the two views: the fields [principal] and
    [interval]. *)
Record LoanDetails (num : Type) : Type := MkLoanDetails {
  ld_principal : num;
  ld_interval : Z
}.

(** What [recalc] stores in [$scope]: the fields [npv], [irr], [eir],
    [aop] and [plan]. *)
Record Scope (num : Type) : Type := MkScope {
  scope_npv : num;
  scope_irr : num;
  scope_eir : num;
  scope_aop : num;
  scope_plan : Schedule num
}.

Section EffectiveRate.

Context {num : Type} {AR : Arith num}.
Local Open Scope js_scope.

(** [Math.exp] is a primitive of the host that binary64 leaves
    implementation-approximated: it is a parameter here. *)
Variable Math_exp : num -> num.

(** [EIR], calc.js line 50.  [ppy] is the integer number of periods per
    year; it is falsy exactly when it is 0. *)
Definition EIR (rate : num) (ppy : Z) : num :=
  if (ppy =? 0)%Z then Math_exp rate - #1
  else Math_pow (#1 + rate) ppy - #1.

(** The facade's [eir], calc.js line 39. *)
Definition eir (rate : num) (ppy : Z) : num := EIR (rate / #ppy) ppy.

End EffectiveRate.

Section Facade.

Context {num : Type} {JS : JSNumber num}.
Local Open Scope js_scope.

Variable Math_exp : num -> num.

(** The other entries of the [Calculator] object, calc.js lines 36 to 41.
    An exception thrown by [IRR] or [NPV] passes through. *)
Definition aop (cashflow : list num) (rate : option num) (ppy : Z) : option num :=
  irr <- IRR cashflow rate ;; Some (EIR Math_exp irr ppy).

Definition npv (cashflow : list num) (rate : num) : option num := NPV cashflow rate.

Definition irr (cashflow : list num) (rate : option num) : option num :=
  IRR cashflow rate.

Definition cfw (p ppy : num) (options : option (Options num)) : Schedule num :=
  cashflow p ppy options.

(** [recalc] of the two views (calc.js line 293, view2.js line 49), as a
    function of what it reads from [$scope].  Reading [.interest] of a
    block that does not exist throws a TypeError ([None]). *)
Definition recalc (selectedPeriod : nat) (loanDetails : LoanDetails num)
    (financeOptions : Options num) : option (Scope num) :=
  pers <- opt_periods financeOptions ;;
  selected <- nth_error pers selectedPeriod ;;
  let r := interest selected / #(ld_interval loanDetails) / #100 in
  let plan := cfw (ld_principal loanDetails) #(ld_interval loanDetails)
                  (Some financeOptions) in
  let cashflow := sc_cashflow plan in
  npv_ <- npv cashflow r ;;
  irr_ <- irr cashflow (Some lit_0_1) ;;
  let eir_ := eir Math_exp (interest selected / #100) (ld_interval loanDetails) in
  aop_ <- aop cashflow (Some lit_0_1) (ld_interval loanDetails) ;;
  Some {| scope_npv := npv_; scope_irr := irr_; scope_eir := eir_;
          scope_aop := aop_; scope_plan := plan |}.

End Facade.

(** * Part II: the notions the properties are stated with *)

Section ValuationNotions.

Context {num : Type} {AR : Arith num}.
Local Open Scope js_scope.

(** The value the specification gives for the net present value: the
    entry at index 0 unscaled, then, in index order, each later entry
    divided by [r^i]. *)
Definition npv_sum (cashflow : list num) (r : num) : num :=
  fold_left (fun acc i => acc + nth i cashflow #0 / Math_pow r (Z.of_nat i))
            (seq 1 (length cashflow - 1))
            (nth 0 cashflow #0).

(** The terms of the derivative, in index order from index 1: each is
    [i * cashflow[i] / r^(i+1)], subtracted from what came before. *)
Definition dnpv_terms (cashflow : list num) (r : num) (start : num) : num :=
  fold_left (fun acc i =>
               acc - #(Z.of_nat i) * nth i cashflow #0 / Math_pow r (Z.of_nat (i + 1)))
            (seq 1 (length cashflow - 1))
            start.

(** The value the specification gives for the derivative: nothing for
    the entry at index 0, then the terms. *)
Definition dnpv_sum (cashflow : list num) (r : num) : num :=
  dnpv_terms cashflow r #0.

(** The balance left of [P] after [k] periods of declining-balance
    interest at [rate] with a fixed payment: [b0 = P],
    [b(k+1) = bk * (1 + rate) - payment]. *)
Fixpoint remaining (P rate payment : num) (k : nat) : num :=
  match k with
  | O => P
  | S k' => remaining P rate payment k' * (#1 + rate) - payment
  end.

End ValuationNotions.

Section SolverNotions.

Context {num : Type} {JS : JSNumber num}.
Local Open Scope js_scope.

(** The check that guards the solver: at least one entry above 0 and at
    least one below 0. *)
Definition has_both_signs (cashflow : list num) : bool :=
  some (fun CFn => CFn >? #0) cashflow && some (fun CFn => CFn <? #0) cashflow.

(** One Newton update, [rate - NPV(rate) / dNPV(rate)]. *)
Definition newton_update (cashflow : list num) (rate : num) : num :=
  match NPV cashflow rate, dNPV cashflow rate with
  | Some npv, Some d => rate - npv / d
  | _, _ => NaN
  end.

(** The rate after [k] updates from the seed. *)
Fixpoint iterate (cashflow : list num) (seed : num) (k : nat) : num :=
  match k with
  | O => seed
  | S k' => newton_update cashflow (iterate cashflow seed k')
  end.

(** The convergence test of an iteration that starts from [rate]: the
    update moves the rate by less than [epsMax], or the net present
    value at [rate] is within [epsMax] of 0. *)
Definition test_at (cashflow : list num) (rate : num) : bool :=
  match NPV cashflow rate with
  | Some npv =>
      (Math_abs (newton_update cashflow rate - rate) <? epsMax)
      || (Math_abs npv <? epsMax)
  | None => false
  end.

(** That test at iteration [k], counted from 0. *)
Definition converged (cashflow : list num) (seed : num) (k : nat) : bool :=
  test_at cashflow (iterate cashflow seed k).

(** The seed: the initial guess, or 0.1 when none is given. *)
Definition seed_of (initialguess : option num) : num :=
  match initialguess with None => lit_0_1 | Some g => g end.

End SolverNotions.

Section ScheduleNotions.

Context {num : Type} {JS : JSNumber num}.
Local Open Scope js_scope.

(** The loop has been left by its own means: its test fails, or the
    body reaches [break]. *)
Definition exited (opt : Options num) (loan : list (LoanPeriod num))
    (st : LoopState num) : Prop :=
  running st = false \/ body opt loan st = None.

(** [i] is the number of entries, the entries are numbered 1, 2, ...,
    and [i] is at most 181. *)
Definition counted (st : LoopState num) : Prop :=
  map (fun e => pe_i e) (ls_plan st) = seq 1 (ls_i st) /\ (ls_i st <= 181)%nat.

(** An ordinary period from the balance [b]: the interest is a
    segment's rate on [b], the repayment is the segment's payment minus
    that interest and is below [b], and it is taken off the balance. *)
Definition ordinary_period (loan : list (LoanPeriod num)) (b : num)
    (e : PlanEntry num) : Prop :=
  (exists per, In per loan
               /\ pe_interest e = lp_interest per * b
               /\ pe_repayed e = lp_payment per - pe_interest e)
  /\ (b >? pe_repayed e) = true
  /\ pe_balance e = b - pe_repayed e.

(** The final payment from the balance [b]: the segment's payment minus
    the interest is not below [b]; the balance itself is repaid and
    exactly 0 is recorded. *)
Definition final_payment (loan : list (LoanPeriod num)) (b : num)
    (e : PlanEntry num) : Prop :=
  (exists per, In per loan
               /\ pe_interest e = lp_interest per * b
               /\ (b >? lp_payment per - pe_interest e) = false)
  /\ pe_repayed e = b
  /\ pe_balance e = #0.

(** How the recorded balance moves along a plan that starts from the
    balance [b]: through ordinary periods, after which either the plan
    stops or the final payment is its last entry. *)
Inductive winds_down (loan : list (LoanPeriod num))
    : num -> list (PlanEntry num) -> Prop :=
| wd_stop (b : num) : winds_down loan b []
| wd_period (b : num) (e : PlanEntry num) (rest : list (PlanEntry num)) :
    ordinary_period loan b e ->
    winds_down loan (pe_balance e) rest ->
    winds_down loan b (e :: rest)
| wd_final (b : num) (e : PlanEntry num) :
    final_payment loan b e ->
    winds_down loan b [e].

(** A plan of ordinary periods only. *)
Fixpoint ordinary (loan : list (LoanPeriod num)) (b : num)
    (plan : list (PlanEntry num)) : Prop :=
  match plan with
  | [] => True
  | e :: rest => ordinary_period loan b e /\ ordinary loan (pe_balance e) rest
  end.

(** The balance after the last entry of a plan that starts from [b]. *)
Fixpoint closing_balance (b : num) (plan : list (PlanEntry num)) : num :=
  match plan with
  | [] => b
  | e :: rest => closing_balance (pe_balance e) rest
  end.

(** The payment [loanPeriods] is expected to store for the block
    [period] at [index]: a fixed payment as it is; a computed one rounded
    up when [rounded] is set, and as computed otherwise. *)
Definition stored_payment (ppy : num) (pers : list (Period num)) (rounded : bool)
    (principal : num) (period : Period num) (index : nat) : num :=
  if usePayment period then payment period
  else if rounded then Math_ceil (computedPayment ppy pers principal period index)
       else computedPayment ppy pers principal period index.

End ScheduleNotions.

Section Binary64Notions.

Local Open Scope js_scope.

(** A block without fee. *)
Definition block (n : Z) (rate pay : float) (fixed : bool) : Period float :=
  {| periods := n; interest := rate; payment := pay; fee := #0; usePayment := fixed |}.

(** Options with one block and no costs. *)
Definition one_block (b : Period float) (rounded : bool) : Options float :=
  {| costs := #0; opt_periods := Some [b]; includeCost := true;
     roundedPayment := rounded |}.

(** No balance of the sequence is above the one before it. *)
Fixpoint non_increasing (l : list float) : bool :=
  match l with
  | x :: (y :: _) as rest => (y <=? x) && non_increasing rest
  | _ => true
  end.

End Binary64Notions.

Section FurtherNotions.

Context {num : Type} {JS : JSNumber num}.
Local Open Scope js_scope.

(** The number of periods of a list of blocks. *)
Definition total_periods (l : list (Period num)) : Z :=
  fold_right (fun b acc => (periods b + acc)%Z) 0%Z l.

(** The block that period number [i] (counted from 1) falls in: the first
    one whose [end] is above [i - 1]. *)
Definition block_of (loan : list (LoanPeriod num)) (i : nat)
    : option (LoanPeriod num) :=
  find (fun period => (Z.of_nat (i - 1) <? lp_end period)%Z) loan.

(** The upfront costs fall on period 1 when they are not included in the
    principal. *)
Definition costs_fall_on (opt : Options num) (i : nat) : bool :=
  (i =? 1)%nat && negb (includeCost opt).

(** What an entry holds besides the balance: the fee is the block's fee,
    with the costs added when they fall on the period; the payment is the
    block's payment plus the block's fee, with the costs added likewise,
    or, when the balance itself is repaid, what is repaid plus the
    interest plus the fee. *)
Definition entry_of_block (opt : Options num) (loan : list (LoanPeriod num))
    (e : PlanEntry num) : Prop :=
  exists per,
    block_of loan (pe_i e) = Some per
    /\ pe_fee e = (if costs_fall_on opt (pe_i e) then lp_fee per + costs opt
                   else lp_fee per)
    /\ (pe_payment e = (if costs_fall_on opt (pe_i e)
                        then lp_payment per + lp_fee per + costs opt
                        else lp_payment per + lp_fee per)
        \/ pe_payment e = pe_repayed e + pe_interest e + pe_fee e).

(** An entry written from the balance [b].  It belongs to the first
    block whose [end] is above its period index minus one; its interest
    is that block's rate on [b]; its fee is the block's fee, with the
    costs added when they fall on the period.  When the block's payment
    less the interest is below [b], that is what is repaid, it is taken
    off the balance, and the payment is the block's payment plus the
    block's fee (plus the costs when they fall on the period).  When it
    is not below [b], the balance itself is repaid, the balance recorded
    is 0, and the payment is what is repaid plus the interest plus the
    fee. *)
Definition entry_from (opt : Options num) (loan : list (LoanPeriod num))
    (b : num) (e : PlanEntry num) : Prop :=
  exists per,
    block_of loan (pe_i e) = Some per
    /\ pe_interest e = lp_interest per * b
    /\ pe_fee e = (if costs_fall_on opt (pe_i e) then lp_fee per + costs opt
                   else lp_fee per)
    /\ ((b >? lp_payment per - pe_interest e) = true
        /\ pe_repayed e = lp_payment per - pe_interest e
        /\ pe_balance e = b - pe_repayed e
        /\ pe_payment e = (if costs_fall_on opt (pe_i e)
                           then lp_payment per + lp_fee per + costs opt
                           else lp_payment per + lp_fee per)
        \/
        (b >? lp_payment per - pe_interest e) = false
        /\ pe_repayed e = b
        /\ pe_balance e = #0
        /\ pe_payment e = pe_repayed e + pe_interest e + pe_fee e).

(** A plan each entry of which is written from the balance the entry
    before it recorded, the first one from [b]. *)
Fixpoint plan_from (opt : Options num) (loan : list (LoanPeriod num))
    (b : num) (plan : list (PlanEntry num)) : Prop :=
  match plan with
  | [] => True
  | e :: rest => entry_from opt loan b e /\ plan_from opt loan (pe_balance e) rest
  end.

End FurtherNotions.

(** The plain sum of a cashflow. *)
Definition plain_sum (l : list R) : R := fold_right Rplus 0%R l.

Section FurtherBinary64Notions.

Local Open Scope js_scope.

(** The options the second view starts from. *)
Definition view2_options : Options float :=
  {| costs := #1800;
     opt_periods :=
       Some [ {| periods := 6; interest := #0; payment := #0; fee := #0;
                 usePayment := true |};
              {| periods := 24; interest := #10; payment := #0; fee := #25;
                 usePayment := false |} ];
     includeCost := true;
     roundedPayment := false |}.

(** Options without the key [periods]. *)
Definition no_blocks : Options float :=
  {| costs := #0; opt_periods := None; includeCost := true;
     roundedPayment := false |}.

End FurtherBinary64Notions.

(** Two binary64 values that [PrimFloat.eqb] tells apart are different. *)
Ltac binary64_differ :=
  let H := fresh "H" in
  let E := fresh "E" in
  intros H;
  match type of H with
  | ?x = ?y =>
      assert (E : PrimFloat.eqb x y = false) by reflexivity;
      rewrite H in E; discriminate E
  end.

(** * Part III: the properties *)

(** ** Arrays *)

Lemma fold_left_ext_in {A B : Type} (f g : A -> B -> A) (l : list B) (a : A) :
  (forall x y, In y l -> f x y = g x y) -> fold_left f l a = fold_left g l a.
Proof.
  revert a; induction l as [|y l IH]; intros a Hfg; simpl.
  - reflexivity.
  - rewrite (Hfg a y) by (left; reflexivity).
    apply IH. intros x z Hz. apply Hfg. right; exact Hz.
Qed.

(** [reduce] visits the elements in index order: it is the left fold over
    the indices [i, i+1, ...] of the callback applied to the element read
    at each index. *)
Lemma reduce_from_indices {A B : Type} (f : B -> A -> nat -> B) (d : A) (l : list A) :
  forall acc i,
    reduce_from f acc i l
    = fold_left (fun a j => f a (nth (j - i) l d) j) (seq i (length l)) acc.
Proof.
  induction l as [|x t IH]; intros acc i; simpl.
  - reflexivity.
  - rewrite Nat.sub_diag. rewrite IH.
    apply fold_left_ext_in. intros a j Hj.
    apply in_seq in Hj.
    replace (j - i)%nat with (S (j - S i)) by lia. reflexivity.
Qed.

(** Without an initial value, the callback is only ever called at the
    indices from 1, on the element read there. *)
Lemma reduce_from_second {A : Type} (f g : A -> A -> nat -> A) (d c0 : A)
    (rest : list A) :
  (forall a x i, (0 < i)%nat -> f a x i = g a x i) ->
  reduce f (c0 :: rest)
  = Some (fold_left (fun a j => g a (nth j (c0 :: rest) d) j)
                    (seq 1 (length (c0 :: rest) - 1)) c0).
Proof.
  intros Hfg. unfold reduce. f_equal.
  rewrite (reduce_from_indices _ d).
  replace (length (c0 :: rest) - 1)%nat with (length rest) by (simpl; lia).
  apply fold_left_ext_in. intros a j Hj. apply in_seq in Hj.
  destruct j as [|j]; [lia|].
  replace (S j - 1)%nat with j by lia.
  apply Hfg. lia.
Qed.

(** ** Cashflow valuation *)

Section ValuationFacts.

Context {num : Type} {AR : Arith num}.
Local Open Scope js_scope.

(** On a non-empty cashflow [NPV] does not throw, and its accumulator
    starts at the entry of index 0. *)
Lemma NPV_from_first (c0 : num) (rest : list num) (rate : num) :
  NPV (c0 :: rest) rate = Some (npv_sum (c0 :: rest) (rate + #1)).
Proof.
  unfold NPV, npv_sum.
  rewrite (@reduce_from_second _ _
             (fun NPVn CFn i => NPVn + CFn / Math_pow (rate + #1) (Z.of_nat i)) #0).
  - reflexivity.
  - intros a x i Hi.
    replace (0 <? i)%nat with true by (symmetry; apply Nat.ltb_lt; exact Hi).
    reflexivity.
Qed.

(** On a non-empty cashflow [dNPV] does not throw, and its accumulator
    too starts at the entry of index 0: the branch of the callback that
    returns 0 for index 0 is never taken. *)
Lemma dNPV_from_first (c0 : num) (rest : list num) (rate : num) :
  dNPV (c0 :: rest) rate = Some (dnpv_terms (c0 :: rest) (rate + #1) c0).
Proof.
  unfold dNPV, dnpv_terms.
  rewrite (@reduce_from_second _ _
             (fun NPVn CFn i =>
                NPVn - #(Z.of_nat i) * CFn / Math_pow (rate + #1) (Z.of_nat (i + 1))) #0).
  - reflexivity.
  - intros a x i Hi.
    replace (0 <? i)%nat with true by (symmetry; apply Nat.ltb_lt; exact Hi).
    reflexivity.
Qed.

(** C7: on a non-empty cashflow [NPV] returns the entry at index 0
    unscaled plus the sum over [i >= 1] of [cashflow[i] / (1+rate)^i],
    and on a single-element cashflow it returns that element, whatever
    the rate. *)
Theorem NPV_is_discounted_sum (c0 : num) (rest : list num) (rate : num) :
  NPV (c0 :: rest) rate = Some (npv_sum (c0 :: rest) (rate + #1))
  /\ NPV [c0] rate = Some c0.
Proof.
  split.
  - apply NPV_from_first.
  - reflexivity.
Qed.

End ValuationFacts.

(** C1: at the cashflow [-100, 60, 60] and rate 0 the sum of the
    specification is -180 (= -1*60 - 2*60) but [dNPV] returns -280: the
    entry at index 0 is counted in full instead of contributing 0. *)
Theorem dNPV_counts_first_entry :
  let cashflow : list float := [#(-100); #60; #60]%js in
  dNPV cashflow #0%js = Some #(-280)%js
  /\ dnpv_sum cashflow (#0 + #1)%js = #(-180)%js.
Proof. split; vm_compute; reflexivity. Qed.

(** ** The annuity factor *)

Section AnnuityFacts.

Context {num : Type} {AR : Arith num}.
Local Open Scope js_scope.

Lemma apf_positive_rate (rate : num) (n : Z) :
  (rate >? #0) = true ->
  apf rate n = rate / (#1 - Math_pow (#1 + rate) (- n)%Z).
Proof. intros H. unfold apf. rewrite H. reflexivity. Qed.

Lemma apf_linear (rate : num) (n : Z) :
  (rate >? #0) = false -> (0 < n)%Z -> apf rate n = #1 / #n.
Proof.
  intros H Hn. unfold apf. rewrite H.
  replace (n >? 0)%Z with true by (symmetry; apply Z.gtb_lt; lia).
  reflexivity.
Qed.

Lemma apf_degenerate (rate : num) (n : Z) :
  (rate >? #0) = false -> (n <= 0)%Z -> apf rate n = #1.
Proof.
  intros H Hn. unfold apf. rewrite H.
  destruct (n >? 0)%Z eqn:E; [apply Z.gtb_lt in E; lia | reflexivity].
Qed.

End AnnuityFacts.

Section AnnuityBinary64.

Local Open Scope js_scope.

Lemma zero_not_positive : ((#0 : float) >? #0) = false.
Proof. reflexivity. Qed.

(** C4, as the code has it: [apf] returns [rate / (1 - (1+rate)^(-n))]
    for every rate above 0 (whatever [n] is), [1/n] for rate 0 and
    [n > 0], and 1 for [n = 0] when the rate is not above 0. *)
Theorem apf_cases (rate : float) (n : Z) :
  ((rate >? #0) = true ->
     apf rate n = rate / (#1 - Math_pow (#1 + rate) (- n)%Z))
  /\ ((0 < n)%Z -> apf (#0 : float) n = #1 / #n)
  /\ ((rate >? #0) = false -> apf rate 0 = #1).
Proof.
  split; [|split].
  - apply apf_positive_rate.
  - apply apf_linear. exact zero_not_positive.
  - intros H. apply apf_degenerate; [exact H | lia].
Qed.

(** [apf_cases] at rate 1 with 2 periods, at rate 0 with 2 periods and at
    rate 0 with no period. *)
Lemma apf_cases_witness :
  apf (#1 : float) 2 = #1 / (#1 - Math_pow (#1 + #1) (- 2)%Z)
  /\ apf (#0 : float) 2 = #1 / #2
  /\ apf (#0 : float) 0 = #1.
Proof.
  split; [|split].
  - apply (apf_cases #1 2). reflexivity.
  - apply (apf_cases #0 2). lia.
  - apply (apf_cases #0 0). reflexivity.
Defined.

(** C4 as stated fails at rate 1 and [n = 0]: the first branch is taken,
    [Math.pow(2, -0)] is 1 and the quotient [1 / (1 - 1)] is
    [+Infinity], not 1. *)
Lemma apf_zero_periods_positive_rate :
  apf (#1 : float) 0 = PrimFloat.infinity /\ apf (#1 : float) 0 <> #1.
Proof. split; [reflexivity | binary64_differ]. Qed.

(** C6 as stated fails in binary64: for [P = 1], [rate = 1] and [n = 2]
    the payment is the rounded quotient [1 / 0.75], and the balance
    after two periods is [2^-52], not 0. *)
Lemma pmt_leaves_rounding_residue :
  pmt (#1 : float) #1 2 = 0x1.5555555555555p+0%float
  /\ remaining (#1 : float) #1 (pmt #1 #1 2) 2 = 0x1p-52%float
  /\ remaining (#1 : float) #1 (pmt #1 #1 2) 2 <> #0.
Proof. split; [reflexivity | split; [reflexivity | binary64_differ]]. Qed.

(** Nor is what binary64 leaves always small: for [P = 1000],
    [rate = 1] and [n = 60] the factor [1 / (1 - 2^-60)] is rounded to 1,
    the payment is the interest on the principal, and the balance after
    60 periods is still the whole principal. *)
Lemma pmt_leaves_whole_principal :
  pmt (#1000 : float) #1 60 = #1000
  /\ remaining (#1000 : float) #1 (pmt #1000 #1 60) 60 = #1000.
Proof. split; vm_compute; reflexivity. Qed.

End AnnuityBinary64.

Section AnnuityExact.

Local Open Scope R_scope.

(** The closed form of the recurrence, cleared of its denominator. *)
Lemma remaining_closed_form (P rate payment : R) (k : nat) :
  remaining P rate payment k * rate
  = P * (1 + rate) ^ k * rate - payment * ((1 + rate) ^ k - 1).
Proof.
  induction k as [|k IH]; simpl.
  - ring.
  - replace ((remaining P rate payment k * (1 + rate) - payment) * rate)
      with (remaining P rate payment k * rate * (1 + rate) - payment * rate)
      by ring.
    rewrite IH. ring.
Qed.

Lemma apf_exact (rate : R) (n : nat) :
  0 < rate -> apf rate (Z.of_nat n) = rate / (1 - / (1 + rate) ^ n).
Proof.
  intros Hr. unfold apf. simpl.
  destruct (Rlt_dec 0 rate) as [_|C]; [|contradiction].
  rewrite powerRZ_neg', <- pow_powerRZ. reflexivity.
Qed.

(** C6 in exact arithmetic: for every principal, every rate above 0 and
    every period count above 0, the payment [pmt P rate n] brings the
    balance of the recurrence [b0 = P], [b(k+1) = bk * (1 + rate) - pmt]
    to exactly 0 after [n] periods. *)
Theorem pmt_amortizes_exactly (P rate : R) (n : nat) :
  0 < rate -> (0 < n)%nat ->
  remaining P rate (pmt P rate (Z.of_nat n)) n = 0.
Proof.
  intros Hr Hn.
  assert (Hq : 1 < (1 + rate) ^ n) by (apply Rlt_pow_R1; [lra | exact Hn]).
  set (q := (1 + rate) ^ n) in *.
  assert (Hden : 1 - / q <> 0).
  { intros C. assert (Hinv : / q = 1) by lra.
    assert (Hone : q * / q = 1) by (apply Rinv_r; lra).
    rewrite Hinv in Hone. lra. }
  apply (Rmult_eq_reg_r rate); [|lra].
  rewrite remaining_closed_form. fold q.
  unfold pmt. simpl js_mul. rewrite (apf_exact n Hr). fold q.
  field. split; lra.
Qed.

(** [pmt_amortizes_exactly] for 1000 repaid over 3 periods at 10 percent
    per period. *)
Lemma pmt_amortizes_exactly_witness :
  remaining 1000 (1 / 10) (pmt 1000 (1 / 10) (Z.of_nat 3)) 3 = 0.
Proof. apply (pmt_amortizes_exactly 1000 (n := 3)); [lra | lia]. Defined.

End AnnuityExact.

(** ** The rate solver *)

Section SolverFacts.

Context {num : Type} {JS : JSNumber num}.
Local Open Scope js_scope.

Lemma has_both_signs_nonempty (cashflow : list num) :
  has_both_signs cashflow = true -> exists c0 rest, cashflow = c0 :: rest.
Proof.
  destruct cashflow as [|c0 rest]; [discriminate|].
  intros _. exists c0, rest. reflexivity.
Qed.

(** One pass through the loop of [IRR] on a non-empty cashflow, where
    neither valuation throws. *)
Lemma newton_pass (c0 : num) (rest : list num) (left : nat) (irr : num) :
  newton (c0 :: rest) (S left) irr
  = if test_at (c0 :: rest) irr
    then Some (Some (newton_update (c0 :: rest) irr))
    else newton (c0 :: rest) left (newton_update (c0 :: rest) irr).
Proof.
  cbn [newton]. unfold test_at, newton_update.
  rewrite (NPV_from_first c0 rest irr), (dNPV_from_first c0 rest irr).
  reflexivity.
Qed.

(** The loop of [IRR], started at iteration [k] with [left] iterations
    to go, returns at the first iteration whose test is met. *)
Lemma newton_first_converged (c0 : num) (rest : list num) (seed : num) :
  forall left k,
    newton (c0 :: rest) left (iterate (c0 :: rest) seed k)
    = Some (match find (converged (c0 :: rest) seed) (seq k left) with
            | Some j => Some (iterate (c0 :: rest) seed (S j))
            | None => None
            end).
Proof.
  induction left as [|left IH]; intros k.
  - reflexivity.
  - rewrite newton_pass. cbn [seq find]. unfold converged at 1.
    destruct (test_at (c0 :: rest) (iterate (c0 :: rest) seed k)).
    + reflexivity.
    + exact (IH (S k)).
Qed.

(** C2, as the code has it: [IRR] never throws.  It returns NaN when the
    cashflow lacks an entry above 0 or an entry below 0, and when none of
    the 50 iterations meets a convergence test; otherwise it returns the
    Newton update computed by the first iteration whose test is met
    (which is whatever the division produced, NaN included). *)
Theorem IRR_result (cashflow : list num) (initialguess : option num) :
  IRR cashflow initialguess
  = Some (if has_both_signs cashflow
          then match find (converged cashflow (seed_of initialguess)) (seq 0 iterMax) with
               | Some k => iterate cashflow (seed_of initialguess) (S k)
               | None => NaN
               end
          else NaN).
Proof.
  unfold IRR. fold (has_both_signs cashflow). fold (seed_of initialguess).
  destruct (has_both_signs cashflow) eqn:Hs; [|reflexivity].
  destruct (has_both_signs_nonempty _ Hs) as (c0 & rest & ->).
  change (seed_of initialguess)
    with (iterate (c0 :: rest) (seed_of initialguess) 0) at 1.
  rewrite newton_first_converged. cbn [bind].
  destruct (find _ _); reflexivity.
Qed.

End SolverFacts.

(** C2 as stated fails at the cashflow [-1, 3, -2] with seed 0: the check
    passes and the first iteration meets the test (the net present value
    is 0), yet the value returned is NaN, since [dNPV] is 0 there and the
    update is [0 - 0/0]. *)
Lemma IRR_nan_after_convergence :
  let cashflow : list float := [#(-1); #3; #(-2)]%js in
  has_both_signs cashflow = true
  /\ NPV cashflow #0%js = Some #0%js
  /\ dNPV cashflow #0%js = Some #0%js
  /\ converged cashflow #0%js 0 = true
  /\ IRR cashflow (Some #0%js) = Some PrimFloat.nan.
Proof. repeat split; vm_compute; reflexivity. Qed.

(** ** The month-by-month simulation *)

Section SimulationFacts.

Context {num : Type} {JS : JSNumber num}.
Variables (opt : Options num) (loan : list (LoanPeriod num)).
Local Open Scope js_scope.

(** What one pass of the body does to the loop variables: it appends
    one entry, numbered with the new [i]; the interest is the segment's
    rate on the balance; either the repayment (payment minus interest)
    is below the balance and is taken off it, or the balance itself is
    repaid and becomes 0. *)
Lemma body_pass (st st' : LoopState num) :
  body opt loan st = Some st' ->
  ls_i st' = S (ls_i st)
  /\ exists e,
       ls_plan st' = ls_plan st ++ [e]
       /\ pe_i e = S (ls_i st)
       /\ (ordinary_period loan (ls_balance st) e /\ ls_balance st' = pe_balance e
           \/ final_payment loan (ls_balance st) e /\ ls_balance st' = #0).
Proof.
  unfold body, ordinary_period, final_payment.
  destruct (find _ loan) as [per|] eqn:Hfind; [|discriminate].
  apply find_some in Hfind. destruct Hfind as [Hin _].
  destruct (ls_balance st >? lp_payment per - lp_interest per * ls_balance st) eqn:Hgt;
    intros H; injection H as <-; cbn [ls_i ls_plan ls_balance];
    (split; [reflexivity|]); eexists; (split; [reflexivity|]);
    cbn [pe_i pe_repayed pe_balance pe_interest]; (split; [reflexivity|]).
  - left. repeat split; auto. exists per. auto.
  - right. repeat split; auto. exists per. auto.
Qed.

Lemma simulate_unfold (fuel : nat) (st : LoopState num) :
  simulate opt loan (S fuel) st
  = if running st
    then match body opt loan st with
         | Some st' => simulate opt loan fuel st'
         | None => st
         end
    else st.
Proof. reflexivity. Qed.

Lemma simulate_stopped (fuel : nat) (st : LoopState num) :
  running st = false -> simulate opt loan fuel st = st.
Proof.
  intros H. destruct fuel; [reflexivity|].
  rewrite simulate_unfold, H. reflexivity.
Qed.

Lemma running_index (st : LoopState num) :
  running st = true -> (ls_i st <= 180)%nat.
Proof.
  unfold running. intros H. apply andb_prop in H. destruct H as [H _].
  apply Nat.leb_le. exact H.
Qed.

(** With as many passes as there are indices left up to 181, the loop
    reaches its own exit, and further passes change nothing. *)
Lemma simulate_exits :
  forall fuel st,
    (181 <= fuel + ls_i st)%nat ->
    exited opt loan (simulate opt loan fuel st)
    /\ forall more, simulate opt loan (fuel + more) st = simulate opt loan fuel st.
Proof.
  induction fuel as [|fuel IH]; intros st Hfuel.
  - assert (Hstop : running st = false).
    { destruct (running st) eqn:E; [|reflexivity].
      apply running_index in E. simpl in Hfuel. lia. }
    split.
    + left. exact Hstop.
    + intros more. simpl. apply simulate_stopped. exact Hstop.
  - cbn [Nat.add]. split.
    + rewrite simulate_unfold.
      destruct (running st) eqn:Hrun; [|left; exact Hrun].
      destruct (body opt loan st) as [st'|] eqn:Hbody; [|right; exact Hbody].
      apply IH. destruct (body_pass _ Hbody) as [Hi _]. lia.
    + intros more. rewrite !simulate_unfold.
      destruct (running st) eqn:Hrun; [|reflexivity].
      destruct (body opt loan st) as [st'|] eqn:Hbody; [|reflexivity].
      apply IH. destruct (body_pass _ Hbody) as [Hi _]. lia.
Qed.

Lemma body_counted (st st' : LoopState num) :
  running st = true -> body opt loan st = Some st' -> counted st -> counted st'.
Proof.
  intros Hrun Hbody [Hseq Hle].
  destruct (body_pass _ Hbody) as (Hi & e & Hplan & Hei & _).
  apply running_index in Hrun.
  split; [|lia].
  rewrite Hplan, Hi, map_app, Hseq, seq_S. simpl. rewrite Hei. reflexivity.
Qed.

Lemma simulate_counted :
  forall fuel st, counted st -> counted (simulate opt loan fuel st).
Proof.
  induction fuel as [|fuel IH]; intros st Hc; [exact Hc|].
  rewrite simulate_unfold.
  destruct (running st) eqn:Hrun; [|exact Hc].
  destruct (body opt loan st) as [st'|] eqn:Hbody; [|exact Hc].
  apply IH. eapply body_counted; eauto.
Qed.

End SimulationFacts.

(** ** The balance along the payment plan *)

Section BalanceFacts.

Context {num : Type} {JS : JSNumber num}.
Variable loan : list (LoanPeriod num).
Local Open Scope js_scope.

Lemma ordinary_then (tail : list (PlanEntry num)) :
  forall front b,
    ordinary loan b front ->
    winds_down loan (closing_balance b front) tail ->
    winds_down loan b (front ++ tail).
Proof.
  induction front as [|e front IH]; intros b Hord Htail; simpl in *.
  - exact Htail.
  - destruct Hord as (He & Hord).
    apply wd_period; auto.
Qed.

Lemma ordinary_alone (plan : list (PlanEntry num)) (b : num) :
  ordinary loan b plan -> winds_down loan b plan.
Proof.
  intros Hord. rewrite <- (app_nil_r plan).
  apply ordinary_then; [exact Hord | constructor].
Qed.

Lemma ordinary_snoc (e : PlanEntry num) :
  forall front b,
    ordinary loan b front ->
    ordinary_period loan (closing_balance b front) e ->
    ordinary loan b (front ++ [e]).
Proof.
  induction front as [|x front IH]; intros b Hord He; simpl in *.
  - auto.
  - destruct Hord as (Hx & Hord). auto.
Qed.

Lemma closing_balance_snoc (e : PlanEntry num) :
  forall front b, closing_balance b (front ++ [e]) = pe_balance e.
Proof. induction front as [|x front IH]; intros b; simpl; auto. Qed.

Variable opt : Options num.

(** The comparison [0 >= 0.01] of the loop test is false. *)
Hypothesis zero_below_threshold : ((#0 : num) >=? lit_0_01) = false.

Lemma simulate_winds_down (P : num) :
  forall fuel st,
    ordinary loan P (ls_plan st) ->
    closing_balance P (ls_plan st) = ls_balance st ->
    winds_down loan P (ls_plan (simulate opt loan fuel st)).
Proof.
  induction fuel as [|fuel IH]; intros st Hord Hclose.
  - apply ordinary_alone. exact Hord.
  - rewrite simulate_unfold.
    destruct (running st) eqn:Hrun; [|apply ordinary_alone; exact Hord].
    destruct (body opt loan st) as [st'|] eqn:Hbody;
      [|apply ordinary_alone; exact Hord].
    destruct (body_pass _ _ _ Hbody)
      as (_ & e & Hplan & _ & [(He & Hst') | (He & Hst')]);
      rewrite <- Hclose in He.
    + apply IH.
      * rewrite Hplan. apply ordinary_snoc; auto.
      * rewrite Hplan, closing_balance_snoc. symmetry. exact Hst'.
    + rewrite simulate_stopped.
      * rewrite Hplan. apply ordinary_then; [exact Hord|].
        apply wd_final. exact He.
      * unfold running. rewrite Hst', zero_below_threshold.
        apply andb_false_r.
Qed.

End BalanceFacts.

(** ** The schedule *)

Section ScheduleFacts.

Context {num : Type} {JS : JSNumber num}.
Local Open Scope js_scope.

Lemma final_state_counted (fuel : nat) (p ppy : num) (options : option (Options num)) :
  counted (final_state fuel p ppy options).
Proof.
  unfold final_state. apply simulate_counted.
  split; [reflexivity | simpl; lia].
Qed.

Lemma counted_length (st : LoopState num) :
  counted st -> ls_i st = length (ls_plan st).
Proof.
  intros [Hseq _].
  rewrite <- (length_map (fun e => pe_i e)), Hseq, length_seq. reflexivity.
Qed.

(** X1: the simulation always ends.  Whatever the principal, the periods
    per year and the options, the loop leaves by its own test or [break]
    within 181 passes (more fuel changes nothing), and the payment plan
    has at most 181 entries. *)
Theorem simulation_terminates (p ppy : num) (options : option (Options num)) :
  (forall more,
      final_state (enough_fuel + more) p ppy options
      = final_state enough_fuel p ppy options)
  /\ exited (options_or_default options)
            (loanPeriods ppy (options_or_default options)
                         (principal_of p (options_or_default options)))
            (final_state enough_fuel p ppy options)
  /\ (length (paymentplan (cashflow p ppy options)) <= 181)%nat.
Proof.
  split; [|split].
  - intros more. unfold final_state.
    apply simulate_exits. unfold enough_fuel. lia.
  - unfold final_state.
    apply simulate_exits. unfold enough_fuel. lia.
  - change (paymentplan (cashflow p ppy options))
      with (ls_plan (final_state enough_fuel p ppy options)).
    pose proof (final_state_counted enough_fuel p ppy options) as Hc.
    rewrite <- (counted_length Hc). exact (proj2 Hc).
Qed.

(** C10: the [duration] field is the number of entries of the payment
    plan, and the k-th entry (counted from 1) has period index k. *)
Theorem duration_counts_entries (p ppy : num) (options : option (Options num)) :
  duration (cashflow p ppy options) = length (paymentplan (cashflow p ppy options))
  /\ map (fun e => pe_i e) (paymentplan (cashflow p ppy options))
     = seq 1 (length (paymentplan (cashflow p ppy options))).
Proof.
  pose proof (final_state_counted enough_fuel p ppy options) as Hc.
  change (duration (cashflow p ppy options))
    with (ls_i (final_state enough_fuel p ppy options)).
  change (paymentplan (cashflow p ppy options))
    with (ls_plan (final_state enough_fuel p ppy options)).
  split.
  - apply counted_length. exact Hc.
  - rewrite <- (counted_length Hc). exact (proj1 Hc).
Qed.

(** C8: the [cashflow] field is the one-element sequence [-p], [p]
    being the amount passed by the caller and not the principal, which
    has the costs added when they are included, followed by the total
    payment of each entry of the payment plan in order. *)
Theorem cashflow_field (p ppy : num) (options : option (Options num)) :
  sc_cashflow (cashflow p ppy options)
  = [- p] ++ map (fun e => pe_payment e) (paymentplan (cashflow p ppy options))
  /\ principal (cashflow p ppy options)
     = p + (if includeCost (options_or_default options)
            then costs (options_or_default options) else #0).
Proof. split; reflexivity. Qed.

(** C5, as the code has it: along the payment plan the recorded balance
    starts from the principal; each entry either takes the period's
    repayment (the segment's payment minus the interest on the balance)
    off the balance before it, or is the final payment, which records
    exactly 0 and is the last entry. *)
Theorem balance_winds_down (p ppy : num) (options : option (Options num)) :
  ((#0 : num) >=? lit_0_01) = false ->
  winds_down (loanPeriods ppy (options_or_default options)
                          (principal (cashflow p ppy options)))
             (principal (cashflow p ppy options))
             (paymentplan (cashflow p ppy options)).
Proof.
  intros Hzero.
  change (paymentplan (cashflow p ppy options))
    with (ls_plan (final_state enough_fuel p ppy options)).
  unfold final_state. apply simulate_winds_down.
  - exact Hzero.
  - exact I.
  - reflexivity.
Qed.

End ScheduleFacts.

(** ** The payment stored for each block *)

Section PaymentFacts.

Context {num : Type} {JS : JSNumber num}.
Local Open Scope js_scope.

Lemma resolve_nth (ppy : num) (pers : list (Period num)) (rounded : bool)
    (principal : num) :
  forall l index end_ k period,
    nth_error l k = Some period ->
    exists lp,
      nth_error (resolve ppy pers rounded principal index end_ l) k = Some lp
      /\ lp_payment lp = stored_payment ppy pers rounded principal period (index + k).
Proof.
  induction l as [|x l IH]; intros index end_ k period Hk.
  - destruct k; discriminate.
  - destruct k as [|k]; simpl in Hk.
    + injection Hk as ->. eexists. split; [reflexivity|].
      cbn [lp_payment]. unfold stored_payment. rewrite Nat.add_0_r.
      destruct (usePayment period), rounded; reflexivity.
    + destruct (IH (S index) (end_ + periods x)%Z k period Hk) as (lp & Hlp & Hpay).
      exists lp. split; [exact Hlp|].
      rewrite Hpay. f_equal. lia.
Qed.

(** C9: for the k-th block of the options, the payment stored in
    [loanPeriods] is the block's own payment, unchanged, when the block
    is fixed, whatever [roundedPayment] is; otherwise it is the computed
    payment, rounded up by [Math.ceil] when [roundedPayment] is set and
    left as computed when it is not. *)
Theorem payment_rounding (ppy principal : num) (opt : Options num)
    (pers : list (Period num)) (k : nat) (period : Period num) :
  opt_periods opt = Some pers ->
  nth_error pers k = Some period ->
  exists lp,
    nth_error (loanPeriods ppy opt principal) k = Some lp
    /\ lp_payment lp
       = if usePayment period then payment period
         else if roundedPayment opt
              then Math_ceil (computedPayment ppy pers principal period k)
              else computedPayment ppy pers principal period k.
Proof.
  intros Hpers Hk. unfold loanPeriods. rewrite Hpers.
  destruct (resolve_nth ppy pers (roundedPayment opt) principal pers 0 0 k Hk)
    as (lp & Hlp & Hpay).
  exists lp. split; [exact Hlp|]. exact Hpay.
Qed.

End PaymentFacts.

(** ** Evaluations in binary64 *)

Section Binary64Runs.

Local Open Scope js_scope.

Lemma zero_below_threshold_binary64 : ((#0 : float) >=? lit_0_01) = false.
Proof. reflexivity. Qed.

(** [Math.ceil(1234.10)] is 1235. *)
Lemma ceil_1234_10 : Math_ceil 1234.10%float = (#1235 : float).
Proof. reflexivity. Qed.

(** A computed payment of 1234.10 (one block of one period at rate 0 on
    a principal of 1234.10) is stored as 1235 when [roundedPayment] is
    set and as 1234.10 when it is not; a fixed payment of 1234.10 is
    stored as it is, [roundedPayment] set. *)
Lemma payment_rounding_witness :
  (exists lp,
      nth_error (loanPeriods #12 (one_block (block 1 #0 #0 false) true) 1234.10%float) 0
      = Some lp
      /\ lp_payment lp = (#1235 : float))
  /\ (exists lp,
      nth_error (loanPeriods #12 (one_block (block 1 #0 #0 false) false) 1234.10%float) 0
      = Some lp
      /\ lp_payment lp = 1234.10%float)
  /\ (exists lp,
      nth_error (loanPeriods #12 (one_block (block 1 #0 1234.10%float true) true) #5000) 0
      = Some lp
      /\ lp_payment lp = 1234.10%float).
Proof.
  split; [|split].
  - exact (payment_rounding #12 1234.10%float
             (one_block (block 1 #0 #0 false) true) 0 eq_refl eq_refl).
  - exact (payment_rounding #12 1234.10%float
             (one_block (block 1 #0 #0 false) false) 0 eq_refl eq_refl).
  - exact (payment_rounding #12 #5000
             (one_block (block 1 #0 1234.10%float true) true) 0 eq_refl eq_refl).
Defined.

(** C3 as stated fails on a loan of 1000 repaid by a fixed payment of 1
    per period over a block of 200 periods at rate 0: the loop test
    [i <= 180] lets [i] run from 0 to 180, and the plan has 181 entries,
    the last one numbered 181 and leaving a balance of 819. *)
Theorem plan_of_181_entries :
  let s := cashflow #1000 #12 (Some (one_block (block 200 #0 #1 true) false)) in
  length (paymentplan s) = 181%nat
  /\ duration s = 181%nat
  /\ option_map (fun e => (pe_i e, pe_balance e)) (nth_error (paymentplan s) 180)
     = Some (181%nat, #819).
Proof. repeat split; vm_compute; reflexivity. Qed.

(** C5 as stated fails twice.  On a loan of 100 with one block of 2
    periods at 100 percent per period and a fixed payment of 0, the
    interest is added to the balance, which is 200 and then 400: it
    increases, and the plan does not end on 0.  On a loan of 100 with one
    block of 3 periods at rate 0 whose payment the generator computes
    (100 * (1/3), rounded), the third repayment is still below the
    balance, and the plan ends on the residue that is left, which is
    below 0.01 but is not 0. *)
Lemma balance_invariant_fails :
  let grows := cashflow #100 #1 (Some (one_block (block 2 #100 #0 true) false)) in
  let residue := cashflow #100 #12 (Some (one_block (block 3 #0 #0 false) false)) in
  map (fun e => pe_balance e) (paymentplan grows) = [#200; #400]
  /\ non_increasing (map (fun e => pe_balance e) (paymentplan grows)) = false
  /\ option_map (fun e => PrimFloat.eqb (pe_balance e) #0)
                (nth_error (paymentplan grows) 1) = Some false
  /\ length (paymentplan residue) = 3%nat
  /\ option_map (fun e => pe_balance e) (nth_error (paymentplan residue) 2)
     = Some 0x1p-46%float
  /\ option_map (fun e => PrimFloat.eqb (pe_balance e) #0)
                (nth_error (paymentplan residue) 2) = Some false.
Proof. repeat split; vm_compute; reflexivity. Qed.

(** [balance_winds_down] for 100 repaid by a fixed payment of 60 over a
    block of 2 periods at rate 0. *)
Lemma balance_winds_down_witness :
  let options := Some (one_block (block 2 #0 #60 true) false) in
  winds_down (loanPeriods #12 (options_or_default options)
                          (principal (cashflow #100 #12 options)))
             (principal (cashflow #100 #12 options))
             (paymentplan (cashflow #100 #12 options)).
Proof.
  exact (balance_winds_down #100 #12
           (Some (one_block (block 2 #0 #60 true) false))
           zero_below_threshold_binary64).
Defined.

End Binary64Runs.

(** * Part IV: further properties of the code *)

(** ** The resolved blocks *)

Section ResolvedBlocks.

Context {num : Type} {JS : JSNumber num}.
Local Open Scope js_scope.

Lemma resolve_length (ppy : num) (pers : list (Period num)) (rounded : bool)
    (P : num) :
  forall l index end_,
    length (resolve ppy pers rounded P index end_ l) = length l.
Proof.
  induction l as [|x l IH]; intros index end_; simpl; [|rewrite IH]; reflexivity.
Qed.

Lemma resolve_shape (ppy : num) (pers : list (Period num)) (rounded : bool)
    (P : num) :
  forall l index end_ k period,
    nth_error l k = Some period ->
    exists lp,
      nth_error (resolve ppy pers rounded P index end_ l) k = Some lp
      /\ lp_interest lp = interest period / #100 / ppy
      /\ lp_fee lp = fee period
      /\ lp_end lp = (end_ + total_periods (firstn (S k) l))%Z.
Proof.
  induction l as [|x l IH]; intros index end_ k period Hk.
  - destruct k; discriminate.
  - destruct k as [|k]; simpl in Hk.
    + injection Hk as ->. eexists. split; [reflexivity|].
      cbn [lp_interest lp_fee lp_end firstn total_periods fold_right].
      repeat split. lia.
    + destruct (IH (S index) (end_ + periods x)%Z k period Hk)
        as (lp & Hlp & Hint & Hfee & Hend).
      exists lp. split; [exact Hlp|]. repeat split; auto.
      rewrite Hend. change (firstn (S (S k)) (x :: l)) with (x :: firstn (S k) l).
      cbn [total_periods fold_right]. fold (total_periods (firstn (S k) l)). lia.
Qed.

Lemma resolve_ends (ppy : num) (pers : list (Period num)) (rounded : bool)
    (P : num) :
  forall l index end_,
    Forall (fun b => (0 <= periods b)%Z) l ->
    Forall (fun lp => (lp_end lp <= end_ + total_periods l)%Z)
           (resolve ppy pers rounded P index end_ l).
Proof.
  induction l as [|x l IH]; intros index end_ Hpos; simpl.
  - constructor.
  - inversion Hpos as [|? ? Hx Hl]; subst.
    assert (Htail : (0 <= total_periods l)%Z).
    { clear -Hl. induction Hl; simpl; [lia|].
      fold (total_periods l). lia. }
    constructor.
    + cbn [lp_end]. fold (total_periods l). lia.
    + specialize (IH (S index) (end_ + periods x)%Z Hl).
      fold (total_periods l).
      eapply Forall_impl; [|exact IH]. intros lp Hlp. simpl in Hlp. lia.
Qed.

(** X2: [loanPeriods] has one element per block of the options, in the
    order of the blocks; the element of a block carries the periodic rate
    [interest / 100 / ppy], the block's fee, and as [end] the number of
    periods of the blocks up to and including it. *)
Theorem loanPeriods_shape (ppy P : num) (opt : Options num)
    (pers : list (Period num)) :
  opt_periods opt = Some pers ->
  length (loanPeriods ppy opt P) = length pers
  /\ forall k period,
       nth_error pers k = Some period ->
       exists lp,
         nth_error (loanPeriods ppy opt P) k = Some lp
         /\ lp_interest lp = interest period / #100 / ppy
         /\ lp_fee lp = fee period
         /\ lp_end lp = total_periods (firstn (S k) pers).
Proof.
  intros Hpers. unfold loanPeriods. rewrite Hpers. split.
  - apply resolve_length.
  - intros k period Hk.
    destruct (resolve_shape ppy pers (roundedPayment opt) P pers 0 0 k Hk)
      as (lp & Hlp & Hint & Hfee & Hend).
    exists lp. repeat split; auto.
Qed.

End ResolvedBlocks.

(** ** The entries of the plan *)

Section PlanEntries.

Context {num : Type} {JS : JSNumber num}.
Variables (opt : Options num) (loan : list (LoanPeriod num)).
Local Open Scope js_scope.

Lemma body_entry (st st' : LoopState num) :
  body opt loan st = Some st' ->
  ls_i st' = S (ls_i st)
  /\ exists e,
       ls_plan st' = ls_plan st ++ [e]
       /\ pe_i e = S (ls_i st)
       /\ entry_of_block opt loan e.
Proof.
  unfold body, entry_of_block, block_of, costs_fall_on.
  destruct (find _ loan) as [per|] eqn:Hfind; [|discriminate].
  destruct (ls_balance st >? lp_payment per - lp_interest per * ls_balance st);
    intros H; injection H as <-; cbn [ls_i ls_plan];
    (split; [reflexivity|]); eexists; (split; [reflexivity|]);
    cbn [pe_i pe_fee pe_payment pe_repayed pe_interest];
    (split; [reflexivity|]); exists per;
    replace (S (ls_i st) - 1)%nat with (ls_i st) by lia;
    (split; [exact Hfind|]);
    replace (S (ls_i st) =? 1)%nat with (ls_i st =? 0)%nat
      by (destruct (ls_i st); reflexivity).
  - split; [reflexivity|]. left.
    destruct ((ls_i st =? 0)%nat && negb (includeCost opt)); reflexivity.
  - split; [reflexivity|]. right. reflexivity.
Qed.

(** One pass writes its entry from the balance it starts with, and
    leaves the balance the entry records. *)
Lemma body_entry_from (st st' : LoopState num) :
  body opt loan st = Some st' ->
  exists e,
    ls_plan st' = ls_plan st ++ [e]
    /\ entry_from opt loan (ls_balance st) e
    /\ ls_balance st' = pe_balance e.
Proof.
  unfold body, entry_from, block_of, costs_fall_on.
  destruct (find _ loan) as [per|] eqn:Hfind; [|discriminate].
  destruct (ls_balance st >? lp_payment per - lp_interest per * ls_balance st) eqn:Hgt;
    intros H; injection H as <-; cbn [ls_plan ls_balance];
    eexists; (split; [reflexivity|]);
    cbn [pe_i pe_fee pe_payment pe_repayed pe_interest pe_balance];
    (split; [|reflexivity]); exists per;
    replace (S (ls_i st) - 1)%nat with (ls_i st) by lia;
    (split; [exact Hfind|]); (split; [reflexivity|]);
    replace (S (ls_i st) =? 1)%nat with (ls_i st =? 0)%nat
      by (destruct (ls_i st); reflexivity);
    (split; [reflexivity|]).
  - left. rewrite Hgt. repeat split.
  - right. rewrite Hgt. repeat split.
Qed.

Lemma plan_from_snoc (e : PlanEntry num) :
  forall front b,
    plan_from opt loan b front ->
    entry_from opt loan (closing_balance b front) e ->
    plan_from opt loan b (front ++ [e]).
Proof.
  induction front as [|x front IH]; intros b Hfront He; simpl in *.
  - auto.
  - destruct Hfront as (Hx & Hfront). auto.
Qed.

Lemma simulate_plan_from (P : num) :
  forall fuel st,
    plan_from opt loan P (ls_plan st) ->
    closing_balance P (ls_plan st) = ls_balance st ->
    plan_from opt loan P (ls_plan (simulate opt loan fuel st)).
Proof.
  induction fuel as [|fuel IH]; intros st Hplan Hclose; [exact Hplan|].
  rewrite simulate_unfold.
  destruct (running st); [|exact Hplan].
  destruct (body opt loan st) as [st'|] eqn:Hbody; [|exact Hplan].
  destruct (body_entry_from _ Hbody) as (e & Hnew & He & Hbal).
  apply IH.
  - rewrite Hnew. apply plan_from_snoc; [exact Hplan|].
    rewrite Hclose. exact He.
  - rewrite Hnew, closing_balance_snoc. symmetry. exact Hbal.
Qed.

(** The loop only appends to the plan. *)
Lemma simulate_extends :
  forall fuel st, exists tail,
    ls_plan (simulate opt loan fuel st) = ls_plan st ++ tail.
Proof.
  induction fuel as [|fuel IH]; intros st.
  - exists []. simpl. rewrite app_nil_r. reflexivity.
  - rewrite simulate_unfold.
    destruct (running st); [|exists []; rewrite app_nil_r; reflexivity].
    destruct (body opt loan st) as [st'|] eqn:Hbody;
      [|exists []; rewrite app_nil_r; reflexivity].
    destruct (body_entry _ Hbody) as (_ & e & Hplan & _).
    destruct (IH st') as [tail Htail].
    exists (e :: tail). rewrite Htail, Hplan, <- app_assoc. reflexivity.
Qed.

(** No pass takes [i] beyond a bound on the [end] of every block. *)
Lemma simulate_within (T : Z) :
  Forall (fun lp => (lp_end lp <= T)%Z) loan ->
  forall fuel st,
    (Z.of_nat (ls_i st) <= Z.max 0 T)%Z ->
    (Z.of_nat (ls_i (simulate opt loan fuel st)) <= Z.max 0 T)%Z.
Proof.
  intros Hends. induction fuel as [|fuel IH]; intros st Hi; [exact Hi|].
  rewrite simulate_unfold.
  destruct (running st); [|exact Hi].
  destruct (body opt loan st) as [st'|] eqn:Hbody; [|exact Hi].
  apply IH.
  destruct (body_entry _ Hbody) as (Hnext & e & _ & Hei & per & Hblock & _).
  unfold block_of in Hblock. rewrite Hei in Hblock.
  apply find_some in Hblock. destruct Hblock as [Hin Hlt].
  rewrite Forall_forall in Hends. specialize (Hends per Hin).
  apply Z.ltb_lt in Hlt. rewrite Hnext. lia.
Qed.

End PlanEntries.

(** ** The plan as a whole *)

Section PlanFacts.

Context {num : Type} {JS : JSNumber num}.
Local Open Scope js_scope.

(** X3: the entries of the payment plan are written one from the other,
    the first from the principal and each next one from the balance the
    entry before it recorded.  An entry belongs to the first block whose
    [end] is above the entry's period index minus one; its interest is
    that block's rate on the balance it is written from; its fee is that
    block's fee, to which the upfront costs are added in period 1 only,
    and only when the costs are not included in the principal.  When the
    block's payment less the interest is below the balance, the payment
    is the block's payment plus the block's fee (plus the costs when they
    fall on the period); when it is not, the entry repays the balance
    itself and the payment is what is repaid plus the interest plus the
    fee. *)
Theorem plan_entries_follow_blocks (p ppy : num) (options : option (Options num)) :
  plan_from (options_or_default options)
            (loanPeriods ppy (options_or_default options)
                         (principal_of p (options_or_default options)))
            (principal_of p (options_or_default options))
            (paymentplan (cashflow p ppy options)).
Proof.
  change (paymentplan (cashflow p ppy options))
    with (ls_plan (final_state enough_fuel p ppy options)).
  unfold final_state. apply simulate_plan_from.
  - exact I.
  - reflexivity.
Qed.

(** X4: when no block has a negative number of periods, the plan never
    has more entries than the blocks have periods in all. *)
Theorem plan_within_periods (p ppy : num) (opt : Options num)
    (pers : list (Period num)) :
  opt_periods opt = Some pers ->
  Forall (fun b => (0 <= periods b)%Z) pers ->
  (Z.of_nat (length (paymentplan (cashflow p ppy (Some opt))))
   <= total_periods pers)%Z.
Proof.
  intros Hpers Hpos.
  assert (Htotal : (0 <= total_periods pers)%Z).
  { clear -Hpos. induction Hpos; simpl; [lia|].
    fold (total_periods l). lia. }
  change (paymentplan (cashflow p ppy (Some opt)))
    with (ls_plan (final_state enough_fuel p ppy (Some opt))).
  rewrite <- (counted_length (final_state_counted enough_fuel p ppy (Some opt))).
  rewrite <- (Z.max_r 0 (total_periods pers)) by exact Htotal.
  unfold final_state. apply simulate_within; [|simpl; lia].
  cbn [options_or_default]. unfold loanPeriods. rewrite Hpers.
  exact (resolve_ends ppy pers (roundedPayment opt) (principal_of p opt) 0 0 Hpos).
Qed.

(** X5: the plan is empty exactly when the loop does not make its first
    pass: the principal is not at least 0.01 (below it, or not a number),
    or no block has an [end] above 0 (no blocks, or blocks without
    periods). *)
Theorem plan_empty_iff (p ppy : num) (options : option (Options num)) :
  let opt := options_or_default options in
  paymentplan (cashflow p ppy options) = []
  <-> (principal_of p opt >=? lit_0_01) = false
      \/ Forall (fun lp => (lp_end lp <= 0)%Z)
                (loanPeriods ppy opt (principal_of p opt)).
Proof.
  intros opt.
  change (paymentplan (cashflow p ppy options))
    with (ls_plan (final_state enough_fuel p ppy options)).
  unfold final_state. fold opt.
  set (loan := loanPeriods ppy opt (principal_of p opt)).
  set (st0 := {| ls_i := 0; ls_balance := principal_of p opt; ls_plan := [] |}).
  unfold enough_fuel. rewrite simulate_unfold.
  assert (Hrun : running st0 = (principal_of p opt >=? lit_0_01)) by reflexivity.
  rewrite Hrun.
  destruct (principal_of p opt >=? lit_0_01) eqn:Hge.
  - destruct (body opt loan st0) as [st'|] eqn:Hbody.
    + split.
      * intros Hnil. exfalso.
        destruct (body_entry _ _ _ Hbody) as (_ & e & Hplan & _).
        destruct (simulate_extends opt loan 180 st') as [tail Htail].
        rewrite Htail, Hplan in Hnil. destruct (ls_plan st0); discriminate.
      * intros [C | Hends]; [discriminate|]. exfalso.
        destruct (body_entry _ _ _ Hbody) as (_ & e & _ & Hei & per & Hblock & _).
        unfold block_of in Hblock. rewrite Hei in Hblock.
        apply find_some in Hblock. destruct Hblock as [Hin Hlt].
        rewrite Forall_forall in Hends. specialize (Hends per Hin).
        apply Z.ltb_lt in Hlt. simpl in Hlt. lia.
    + split; [|reflexivity].
      intros _. right.
      unfold body in Hbody. cbn [ls_i st0] in Hbody.
      destruct (find _ loan) as [per|] eqn:Hfind.
      * destruct (ls_balance st0 >? _) in Hbody; discriminate.
      * apply Forall_forall. intros lp Hin.
        pose proof (find_none _ _ Hfind lp Hin) as Hno.
        apply Z.ltb_ge in Hno. simpl in Hno. exact Hno.
  - split; [|reflexivity]. intros _. left. reflexivity.
Qed.

End PlanFacts.

(** ** Not-a-number in binary64 *)

Section NotANumber.

Local Open Scope float_scope.

Lemma nan_add_l (x : float) : nan + x = nan.
Proof.
  apply Prim2SF_inj. rewrite add_spec. change (Prim2SF nan) with S754_nan.
  destruct (Prim2SF x); reflexivity.
Qed.

Lemma nan_add_r (x : float) : x + nan = nan.
Proof.
  apply Prim2SF_inj. rewrite add_spec. change (Prim2SF nan) with S754_nan.
  destruct (Prim2SF x); reflexivity.
Qed.

Lemma nan_sub_l (x : float) : nan - x = nan.
Proof.
  apply Prim2SF_inj. rewrite sub_spec. change (Prim2SF nan) with S754_nan.
  destruct (Prim2SF x); reflexivity.
Qed.

Lemma nan_sub_r (x : float) : x - nan = nan.
Proof.
  apply Prim2SF_inj. rewrite sub_spec. change (Prim2SF nan) with S754_nan.
  destruct (Prim2SF x); reflexivity.
Qed.

Lemma nan_mul_l (x : float) : nan * x = nan.
Proof.
  apply Prim2SF_inj. rewrite mul_spec. change (Prim2SF nan) with S754_nan.
  destruct (Prim2SF x); reflexivity.
Qed.

Lemma nan_mul_r (x : float) : x * nan = nan.
Proof.
  apply Prim2SF_inj. rewrite mul_spec. change (Prim2SF nan) with S754_nan.
  destruct (Prim2SF x); reflexivity.
Qed.

Lemma nan_div_l (x : float) : nan / x = nan.
Proof.
  apply Prim2SF_inj. rewrite div_spec. change (Prim2SF nan) with S754_nan.
  destruct (Prim2SF x); reflexivity.
Qed.

Lemma nan_div_r (x : float) : x / nan = nan.
Proof.
  apply Prim2SF_inj. rewrite div_spec. change (Prim2SF nan) with S754_nan.
  destruct (Prim2SF x); reflexivity.
Qed.

(** No binary64 value is both above and below 0. *)
Lemma not_both_signs (x : float) : (0 <? x) && (x <? 0) = false.
Proof.
  rewrite !ltb_spec. change (Prim2SF 0) with (S754_zero false).
  destruct (Prim2SF x) as [s|s| |s m e]; try reflexivity; destruct s; reflexivity.
Qed.

Lemma pow_nat_nan (k : nat) : Binary64.pow_nat nan (S k) = nan.
Proof. simpl. apply nan_mul_r. Qed.

Lemma pow_nan (z : Z) : z <> 0%Z -> Binary64.pow nan z = nan.
Proof.
  intros Hz. destruct z as [|p|p]; [contradiction| |]; simpl;
    destruct (Pos2Nat.is_succ p) as [k ->]; rewrite pow_nat_nan.
  - reflexivity.
  - apply nan_div_r.
Qed.

End NotANumber.

Section SentinelFacts.

Local Open Scope js_scope.

Variable Math_exp : float -> float.

Lemma EIR_nan (ppy : Z) : ppy <> 0%Z -> EIR Math_exp PrimFloat.nan ppy = PrimFloat.nan.
Proof.
  intros Hz. unfold EIR.
  replace (ppy =? 0)%Z with false by (symmetry; apply Z.eqb_neq; exact Hz).
  cbn [js_add js_sub js_arith Math_pow Binary64.number Binary64.arith].
  rewrite nan_add_r, (pow_nan Hz). apply nan_sub_l.
Qed.

(** X6: the sentinel passes through [aop]: whenever [IRR] returns NaN on
    a cashflow and seed, [aop] returns NaN on them for every number of
    periods per year other than 0, whatever [Math.exp] is. *)
Theorem aop_keeps_sentinel (cashflow : list float) (rate : option float) (ppy : Z) :
  ppy <> 0%Z ->
  IRR cashflow rate = Some PrimFloat.nan ->
  aop Math_exp cashflow rate ppy = Some PrimFloat.nan.
Proof.
  intros Hz Hirr. unfold aop. rewrite Hirr. cbn [bind].
  f_equal. apply EIR_nan. exact Hz.
Qed.

Lemma single_entry_no_rate (x : float) (rate : option float) :
  IRR [x] rate = Some PrimFloat.nan.
Proof.
  unfold IRR, some. cbn [existsb]. rewrite !orb_false_r.
  change (x >? #0) with (PrimFloat.ltb 0 x).
  change (x <? #0) with (PrimFloat.ltb x 0).
  rewrite not_both_signs. reflexivity.
Qed.

(** X7: a schedule without entries has no rate.  When the payment plan is
    empty, the [cashflow] field is the single entry [-p], and on it [IRR]
    returns NaN for every seed, and so does [aop] for every number of
    periods per year other than 0. *)
Theorem empty_plan_has_no_rate (p ppy : float) (options : option (Options float))
    (rate : option float) (periods_per_year : Z) :
  paymentplan (cashflow p ppy options) = [] ->
  sc_cashflow (cashflow p ppy options) = [- p]
  /\ IRR (sc_cashflow (cashflow p ppy options)) rate = Some PrimFloat.nan
  /\ (periods_per_year <> 0%Z ->
      aop Math_exp (sc_cashflow (cashflow p ppy options)) rate periods_per_year
      = Some PrimFloat.nan).
Proof.
  intros Hnil.
  assert (Hcf : sc_cashflow (cashflow p ppy options) = [- p]).
  { change (sc_cashflow (cashflow p ppy options))
      with ([- p] ++ map (fun e => pe_payment e) (paymentplan (cashflow p ppy options))).
    rewrite Hnil. reflexivity. }
  rewrite Hcf. split; [reflexivity|]. split.
  - apply single_entry_no_rate.
  - intros Hz. unfold aop. rewrite single_entry_no_rate. cbn [bind].
    f_equal. apply EIR_nan. exact Hz.
Qed.

End SentinelFacts.

(** ** The split of the principal between the blocks *)

Lemma map_from_nth {A B : Type} (f : A -> nat -> B) (d : B) :
  forall l i k x,
    nth_error l k = Some x -> nth k (map_from f i l) d = f x (i + k)%nat.
Proof.
  induction l as [|y l IH]; intros i k x Hk.
  - destruct k; discriminate.
  - destruct k as [|k]; simpl in *.
    + injection Hk as ->. rewrite Nat.add_0_r. reflexivity.
    + rewrite (IH (S i) k x Hk). f_equal. lia.
Qed.

Lemma map_from_length {A B : Type} (f : A -> nat -> B) (l : list A) :
  forall i, length (map_from f i l) = length l.
Proof. induction l as [|x t IH]; intros i; simpl; [|rewrite IH]; reflexivity. Qed.

Section SplittingFacts.

Context {num : Type} {JS : JSNumber num}.
Local Open Scope js_scope.

(** The marker of an unresolved block, -1, is below 0. *)
Hypothesis marker_negative : ((#(-1) : num) <? #0) = true.

(** X8: a fixed block followed by a computed block.  When the payment of
    the first block gives a delta [payment / apf] that is not below 0, the
    boundaries of the principal are the principal, the principal less that
    delta compounded over the first block, and 0; the first block keeps
    its payment, and the payment of the second block is computed from the
    balance left by the first: that balance, less [0 / growth], times the
    second block's factor, rounded up when [roundedPayment] is set. *)
Theorem fixed_then_computed (ppy P : num) (opt : Options num) (b1 b2 : Period num) :
  let a1 := apf (interest b1 / #100 / ppy) (periods b1) in
  let a2 := apf (interest b2 / #100 / ppy) (periods b2) in
  let left := (P - payment b1 / a1) * growth ppy b1 in
  let computed := (left - #0 / growth ppy b2) * a2 in
  opt_periods opt = Some [b1; b2] ->
  usePayment b1 = true ->
  usePayment b2 = false ->
  (payment b1 / a1 <? #0) = false ->
  principals ppy [b1; b2] P = [P; left; #0]
  /\ map (fun lp => lp_payment lp) (loanPeriods ppy opt P)
     = [payment b1; if roundedPayment opt then Math_ceil computed else computed].
Proof.
  intros a1 a2 left computed Hpers H1 H2 Hdelta.
  assert (Hdeltas : deltaPrincipals ppy [b1; b2] = [payment b1 / a1; #(-1)]).
  { unfold deltaPrincipals, mapi, apfs. simpl. rewrite H1, H2. reflexivity. }
  assert (Hprin : principals ppy [b1; b2] P = [P; left; #0]).
  { unfold principals. rewrite Hdeltas. simpl.
    rewrite Hdeltas. unfold at_. simpl.
    rewrite Hdelta, marker_negative. reflexivity. }
  split; [exact Hprin|].
  unfold loanPeriods. rewrite Hpers.
  simpl. unfold computedPayment. rewrite Hprin.
  rewrite H1, H2. unfold at_. simpl.
  destruct (roundedPayment opt); reflexivity.
Qed.

Lemma deltaPrincipals_computed (ppy : num) (pers : list (Period num)) :
  Forall (fun b => usePayment b = false) pers ->
  forall i b, nth_error pers i = Some b -> at_ (deltaPrincipals ppy pers) i = #(-1).
Proof.
  intros Hall i b Hi. unfold at_, deltaPrincipals, mapi.
  rewrite (map_from_nth _ _ _ 0 _ Hi).
  rewrite Forall_forall in Hall.
  rewrite (Hall b (nth_error_In _ _ Hi)). reflexivity.
Qed.

Lemma deltaPrincipals_length (ppy : num) (pers : list (Period num)) :
  length (deltaPrincipals ppy pers) = length pers.
Proof. unfold deltaPrincipals, mapi. apply map_from_length. Qed.

(** When no block is fixed, neither loop adds a boundary. *)
Lemma principals_computed (ppy P : num) (pers : list (Period num)) :
  Forall (fun b => usePayment b = false) pers ->
  principals ppy pers P = [P; #0].
Proof.
  intros Hall. unfold principals.
  rewrite deltaPrincipals_length.
  destruct pers as [|b l]; [reflexivity|].
  cbn [length seq forward backward].
  rewrite (deltaPrincipals_computed ppy Hall 0 (b := b)) by reflexivity.
  rewrite marker_negative.
  rewrite deltaPrincipals_length. cbn [length].
  destruct (nth_error (b :: l) (S (length l) - 0 - 1)) as [c|] eqn:Hlast.
  - rewrite (deltaPrincipals_computed ppy Hall _ Hlast).
    rewrite marker_negative. reflexivity.
  - exfalso. apply nth_error_None in Hlast. simpl in Hlast. lia.
Qed.

End SplittingFacts.

Section SplittingBinary64.

Local Open Scope js_scope.

Lemma marker_negative_binary64 : ((#(-1) : float) <? #0) = true.
Proof. reflexivity. Qed.

(** [fixed_then_computed] on the options the second view starts from: a
    fixed block of 6 periods at rate 0 with payment 0, then a computed
    block of 24 periods at 10 percent, on a principal of 101800 with 12
    periods per year. *)
Lemma fixed_then_computed_witness :
  let b1 : Period float :=
    {| periods := 6; interest := #0; payment := #0; fee := #0; usePayment := true |} in
  let b2 : Period float :=
    {| periods := 24; interest := #10; payment := #0; fee := #25; usePayment := false |} in
  let opt := {| costs := #1800; opt_periods := Some [b1; b2];
                includeCost := true; roundedPayment := false |} in
  let a1 := apf (interest b1 / #100 / #12) (periods b1) in
  let a2 := apf (interest b2 / #100 / #12) (periods b2) in
  let left := (#101800 - payment b1 / a1) * growth #12 b1 in
  let computed := (left - #0 / growth #12 b2) * a2 in
  principals #12 [b1; b2] #101800 = [#101800; left; #0]
  /\ map (fun lp => lp_payment lp) (loanPeriods #12 opt #101800)
     = [payment b1; if roundedPayment opt then Math_ceil computed else computed].
Proof.
  intros b1 b2 opt.
  exact (fixed_then_computed marker_negative_binary64 #12 #101800 opt
           eq_refl eq_refl eq_refl eq_refl).
Defined.

(** X9: when no block is fixed, only the first block is computed: it gets
    the payment it would get alone, [(principal - 0 / growth) * apf]
    (rounded up when [roundedPayment] is set), and every block after it
    gets a payment that is not a number, since it reads a boundary of the
    principal that was never written. *)
Theorem computed_blocks_after_first (ppy P : float) (opt : Options float)
    (pers : list (Period float)) :
  opt_periods opt = Some pers ->
  Forall (fun b => usePayment b = false) pers ->
  (forall b, nth_error pers 0 = Some b ->
     exists lp,
       nth_error (loanPeriods ppy opt P) 0 = Some lp
       /\ lp_payment lp
          = let alone := (P - #0 / growth ppy b)
                         * apf (interest b / #100 / ppy) (periods b) in
            if roundedPayment opt then Math_ceil alone else alone)
  /\ (forall k b, nth_error pers (S k) = Some b ->
        exists lp,
          nth_error (loanPeriods ppy opt P) (S k) = Some lp
          /\ lp_payment lp = PrimFloat.nan).
Proof.
  intros Hpers Hall.
  pose proof (principals_computed marker_negative_binary64 ppy P Hall) as Hprin.
  unfold loanPeriods. rewrite Hpers. split.
  - intros b Hb.
    destruct (resolve_nth ppy pers (roundedPayment opt) P pers 0 0 0 Hb)
      as (lp & Hlp & Hpay).
    exists lp. split; [exact Hlp|]. rewrite Hpay.
    unfold stored_payment, computedPayment. rewrite Hprin.
    rewrite Forall_forall in Hall. rewrite (Hall b (nth_error_In _ _ Hb)).
    destruct pers as [|b0 l]; [discriminate|]. injection Hb as ->.
    reflexivity.
  - intros k b Hb.
    destruct (resolve_nth ppy pers (roundedPayment opt) P pers 0 0 (S k) Hb)
      as (lp & Hlp & Hpay).
    exists lp. split; [exact Hlp|]. rewrite Hpay.
    unfold stored_payment, computedPayment. rewrite Hprin.
    rewrite Forall_forall in Hall. rewrite (Hall b (nth_error_In _ _ Hb)).
    assert (Hout : forall (x y : float) j, nth (S (S j)) [x; y] PrimFloat.nan = PrimFloat.nan)
      by (intros x y j; destruct j; reflexivity).
    replace (0 + S k + 1)%nat with (S (S k)) by lia.
    unfold at_. change (@NaN float _) with PrimFloat.nan. rewrite Hout.
    cbn [js_sub js_div js_mul js_arith Binary64.number Binary64.arith].
    rewrite nan_div_l, nan_sub_r, nan_mul_l.
    destruct (roundedPayment opt); reflexivity.
Qed.

(** [computed_blocks_after_first] on two computed blocks of 12 periods at
    5 and 10 percent. *)
Lemma computed_blocks_after_first_witness :
  let pers := [block 12 #5 #0 false; block 12 #10 #0 false] in
  let opt := {| costs := #0; opt_periods := Some pers;
                includeCost := true; roundedPayment := true |} in
  exists lp,
    nth_error (loanPeriods #12 opt #1000) 1 = Some lp
    /\ lp_payment lp = PrimFloat.nan.
Proof.
  intros pers opt.
  assert (Hall : Forall (fun b : Period float => usePayment b = false) pers)
    by (repeat constructor).
  exact (proj2 (computed_blocks_after_first #12 #1000 opt eq_refl Hall)
               0%nat (block 12 #10 #0 false) eq_refl).
Defined.

End SplittingBinary64.

(** ** Valuation in exact arithmetic *)

Section ValuationExact.

Local Open Scope R_scope.

Lemma NPV_reduce_zero_rate (rest : list R) :
  forall acc i,
    reduce_from (fun NPVn CFn i =>
                   if (0 <? i)%nat
                   then NPVn + CFn / powerRZ (0 + 1) (Z.of_nat i)
                   else CFn) acc (S i) rest
    = acc + plain_sum rest.
Proof.
  induction rest as [|c rest IH]; intros acc i.
  - simpl. ring.
  - cbn [reduce_from plain_sum fold_right]. fold (plain_sum rest).
    rewrite IH. change (0 <? S i)%nat with true. cbv iota.
    rewrite <- pow_powerRZ.
    replace (0 + 1) with 1 by ring. rewrite pow1. field.
Qed.

(** X10: in exact arithmetic, at rate 0 nothing is discounted: the net
    present value of a non-empty cashflow is the plain sum of its
    entries. *)
Theorem NPV_zero_rate_is_sum (c0 : R) (rest : list R) :
  NPV (c0 :: rest) 0 = Some (plain_sum (c0 :: rest)).
Proof.
  unfold NPV, reduce. f_equal.
  exact (NPV_reduce_zero_rate rest c0 0).
Qed.

(** The discounted value of [n] equal payments made at the periods
    [k+1, ..., k+n]. *)
Lemma NPV_reduce_level (rate pay : R) :
  0 < rate ->
  forall n acc k,
    reduce_from (fun NPVn CFn i =>
                   if (0 <? i)%nat
                   then NPVn + CFn / powerRZ (rate + 1) (Z.of_nat i)
                   else CFn) acc (S k) (repeat pay n)
    = acc + pay * (/ (1 + rate) ^ k - / (1 + rate) ^ (k + n)) / rate.
Proof.
  intros Hr. induction n as [|n IH]; intros acc k.
  - simpl. rewrite Nat.add_0_r. field.
    repeat split; try lra; apply pow_nonzero; lra.
  - cbn [repeat reduce_from]. rewrite IH.
    change (0 <? S k)%nat with true. cbv iota.
    rewrite <- pow_powerRZ.
    replace (rate + 1) with (1 + rate) by ring.
    replace (k + S n)%nat with (S k + n)%nat by lia.
    assert (Hk : (1 + rate) ^ k <> 0) by (apply pow_nonzero; lra).
    assert (Hkn : (1 + rate) ^ (k + n) <> 0) by (apply pow_nonzero; lra).
    cbn [Nat.add pow]. field. repeat split; try lra; assumption.
Qed.

(** X11: in exact arithmetic, the loan repaid by its annuity is worth
    nothing at its own rate: for every principal [P], rate above 0 and
    [n > 0] periods, the cashflow [-P] followed by [n] payments of
    [pmt P rate n] has net present value 0 at [rate]. *)
Theorem annuity_cashflow_has_zero_NPV (P rate : R) (n : nat) :
  0 < rate -> (0 < n)%nat ->
  NPV (- P :: repeat (pmt P rate (Z.of_nat n)) n) rate = Some 0.
Proof.
  intros Hr Hn. unfold NPV, reduce. f_equal.
  cbn [js_add js_div js_int Math_pow Exact.arith].
  rewrite (NPV_reduce_level (pmt P rate (Z.of_nat n)) Hr n (- P) 0).
  unfold pmt. cbn [js_mul Exact.arith]. rewrite (apf_exact n Hr).
  assert (Hq : 1 < (1 + rate) ^ n) by (apply Rlt_pow_R1; [lra | exact Hn]).
  cbn [Nat.add pow]. set (q := (1 + rate) ^ n) in *.
  assert (Hden : 1 - / q <> 0).
  { intros C. assert (Hinv : / q = 1) by lra.
    assert (Hone : q * / q = 1) by (apply Rinv_r; lra).
    rewrite Hinv in Hone. lra. }
  field. split; [lra | split; [lra | lra]].
Qed.

Lemma annuity_cashflow_has_zero_NPV_witness :
  NPV (- 1000 :: repeat (pmt 1000 (1 / 10) (Z.of_nat 3)) 3) (1 / 10) = Some 0.
Proof. apply (annuity_cashflow_has_zero_NPV 1000 (n := 3)); [lra | lia]. Defined.

End ValuationExact.

(** ** The annuity factor and the effective rate in exact arithmetic *)

Section RatesExact.

Local Open Scope R_scope.

Lemma inverse_power_bound (rate : R) (n : nat) :
  0 < rate ->
  0 < / (1 + rate) ^ n <= 1 /\ 1 - INR n * rate <= / (1 + rate) ^ n.
Proof.
  intros Hr. induction n as [|n IH].
  - simpl. rewrite Rinv_1. lra.
  - destruct IH as [[Hpos Hle] Hb].
    rewrite S_INR. cbn [pow].
    assert (Hq : 0 < 1 + rate) by lra.
    assert (Hp : 0 < (1 + rate) ^ n) by (apply pow_lt; lra).
    rewrite Rinv_mult.
    assert (Hinv : 0 < / (1 + rate)) by (apply Rinv_0_lt_compat; lra).
    assert (Hone : (1 + rate) * / (1 + rate) = 1) by (apply Rinv_r; lra).
    set (u := / (1 + rate)) in *. set (y := / (1 + rate) ^ n) in *.
    assert (Hu1 : u <= 1) by nra.
    assert (Hu : 1 - rate <= u) by nra.
    repeat split; nra.
Qed.

(** X12: in exact arithmetic, for every rate above 0 and [n > 0]
    periods, the annuity factor is above the rate, so that the payment
    exceeds the interest of the first period, and it is at least the
    factor [apf 0 n = 1/n] of the linear repayment; over one period it is
    [1 + rate]. *)
Theorem apf_bounds (rate : R) (n : nat) :
  0 < rate -> (0 < n)%nat ->
  rate < apf rate (Z.of_nat n)
  /\ apf 0 (Z.of_nat n) <= apf rate (Z.of_nat n)
  /\ apf rate (Z.of_nat 1) = 1 + rate.
Proof.
  intros Hr Hn.
  assert (HN : 0 < INR n) by (apply lt_0_INR; exact Hn).
  destruct (inverse_power_bound n Hr) as [[Hpos Hle] Hb].
  assert (Hq : 1 < (1 + rate) ^ n) by (apply Rlt_pow_R1; [lra | exact Hn]).
  assert (Hy : / (1 + rate) ^ n < 1).
  { assert (Hone : (1 + rate) ^ n * / (1 + rate) ^ n = 1) by (apply Rinv_r; lra).
    nra. }
  rewrite !(apf_exact _ Hr).
  set (y := / (1 + rate) ^ n) in *.
  assert (Hzero : apf 0 (Z.of_nat n) = / INR n).
  { unfold apf. cbn [js_ltb js_div js_int Exact.arith].
    destruct (Rlt_dec 0 0) as [C|_]; [lra|].
    replace (Z.of_nat n >? 0)%Z with true by (symmetry; apply Z.gtb_lt; lia).
    rewrite <- INR_IZR_INZ. lra. }
  rewrite Hzero.
  split; [|split].
  - apply (Rmult_lt_reg_r (1 - y)); [lra|].
    unfold Rdiv. rewrite Rmult_assoc, Rinv_l by lra. nra.
  - apply (Rmult_le_reg_r (1 - y)); [lra|].
    unfold Rdiv. rewrite Rmult_assoc, Rinv_l by lra.
    apply (Rmult_le_reg_l (INR n)); [lra|].
    rewrite <- Rmult_assoc, Rinv_r by lra. nra.
  - simpl. field. lra.
Qed.

Lemma apf_bounds_witness :
  1 / 10 < apf (1 / 10) (Z.of_nat 3)
  /\ apf 0 (Z.of_nat 3) <= apf (1 / 10) (Z.of_nat 3)
  /\ apf (1 / 10) (Z.of_nat 1) = 1 + 1 / 10.
Proof. apply (apf_bounds (n := 3)); [lra | lia]. Defined.

Lemma power_bounds (x : R) (n : nat) :
  0 <= x -> 1 + INR n * x <= (1 + x) ^ n <= exp (INR n * x).
Proof.
  intros Hx. induction n as [|n IH].
  - simpl. rewrite Rmult_0_l, exp_0. lra.
  - destruct IH as [Hlow Hup]. rewrite S_INR. cbn [pow].
    assert (HN : 0 <= INR n) by apply pos_INR.
    assert (Hp : 0 <= (1 + x) ^ n) by (apply pow_le; lra).
    split; [nra|].
    replace ((INR n + 1) * x) with (x + INR n * x) by ring.
    rewrite exp_plus.
    apply Rmult_le_compat; try lra.
    apply exp_ineq1_le.
Qed.

(** X13: in exact arithmetic, with [Math.exp] the exponential, for every
    nominal rate that is not negative and every number [ppy > 0] of
    periods per year, the effective rate [eir rate ppy] is at least the
    nominal rate, is at most the rate of continuous compounding
    [EIR rate 0], and is the nominal rate itself for one period per
    year. *)
Theorem eir_bounds (rate : R) (ppy : nat) :
  0 <= rate -> (0 < ppy)%nat ->
  rate <= eir exp rate (Z.of_nat ppy) <= EIR exp rate 0
  /\ eir exp rate (Z.of_nat 1) = rate.
Proof.
  intros Hr Hn.
  assert (HN : 0 < INR ppy) by (apply lt_0_INR; exact Hn).
  unfold eir, EIR.
  replace (Z.of_nat ppy =? 0)%Z with false by (symmetry; apply Z.eqb_neq; lia).
  cbn [js_add js_sub js_div js_int Math_pow Exact.arith Z.eqb Z.of_nat].
  rewrite <- pow_powerRZ, <- INR_IZR_INZ.
  assert (Hx : 0 <= rate / INR ppy).
  { unfold Rdiv. apply Rmult_le_pos; [lra|].
    apply Rlt_le, Rinv_0_lt_compat. exact HN. }
  destruct (power_bounds ppy Hx) as [Hlow Hup].
  replace (INR ppy * (rate / INR ppy)) with rate in * by (field; lra).
  split; [lra|].
  simpl. field.
Qed.

Lemma eir_bounds_witness :
  1 / 10 <= eir exp (1 / 10) (Z.of_nat 12) <= EIR exp (1 / 10) 0
  /\ eir exp (1 / 10) (Z.of_nat 1) = 1 / 10.
Proof. apply (eir_bounds (ppy := 12)); [lra | lia]. Defined.

End RatesExact.

(** ** What the facade and the views throw *)

Section FacadeFacts.

Context {num : Type} {JS : JSNumber num}.
Local Open Scope js_scope.

Variable Math_exp : num -> num.

Lemma IRR_returns (cashflow : list num) (rate : option num) :
  exists v, IRR cashflow rate = Some v.
Proof.
  unfold IRR. fold (has_both_signs cashflow).
  destruct (has_both_signs cashflow) eqn:Hs; [|eexists; reflexivity].
  destruct (has_both_signs_nonempty _ Hs) as (c0 & rest & ->).
  change (match rate with None => lit_0_1 | Some g => g end)
    with (iterate (c0 :: rest) (seed_of rate) 0).
  rewrite newton_first_converged. cbn [bind].
  destruct (find _ _); eexists; reflexivity.
Qed.

(** X14: of the entries of the facade that value a cashflow, [npv]
    throws, and does so exactly on the empty cashflow; [irr] and [aop]
    never throw, and on the empty cashflow [irr] returns NaN. *)
Theorem facade_throws_only_in_npv (cashflow : list num) (rate : num)
    (seed : option num) (ppy : Z) :
  (npv cashflow rate = None <-> cashflow = [])
  /\ (exists v, irr cashflow seed = Some v)
  /\ (exists w, aop Math_exp cashflow seed ppy = Some w)
  /\ irr [] seed = Some NaN.
Proof.
  split; [|split; [|split]].
  - unfold npv. destruct cashflow as [|c0 rest].
    + split; reflexivity.
    + rewrite NPV_from_first. split; discriminate.
  - apply IRR_returns.
  - unfold aop. destruct (IRR_returns cashflow seed) as [v ->].
    eexists. reflexivity.
  - reflexivity.
Qed.

(** X15: [recalc] of the two views throws exactly when the selected
    period is not a block of the options (or the options have no blocks
    at all).  Otherwise it stores the schedule of the loan details and
    options, the [npv] and [irr] of that schedule's cashflow, and as
    [aop] the effective rate of that same [irr] over the interval. *)
Theorem recalc_throws_iff (selectedPeriod : nat) (loanDetails : LoanDetails num)
    (financeOptions : Options num) :
  (recalc Math_exp selectedPeriod loanDetails financeOptions = None
   <-> forall pers, opt_periods financeOptions = Some pers ->
                    nth_error pers selectedPeriod = None)
  /\ forall scope,
       recalc Math_exp selectedPeriod loanDetails financeOptions = Some scope ->
       scope_plan scope
       = cashflow (ld_principal loanDetails) #(ld_interval loanDetails)
                  (Some financeOptions)
       /\ IRR (sc_cashflow (scope_plan scope)) (Some lit_0_1) = Some (scope_irr scope)
       /\ scope_aop scope = EIR Math_exp (scope_irr scope) (ld_interval loanDetails)
       /\ exists selected pers,
            opt_periods financeOptions = Some pers
            /\ nth_error pers selectedPeriod = Some selected
            /\ NPV (sc_cashflow (scope_plan scope))
                   (interest selected / #(ld_interval loanDetails) / #100)
               = Some (scope_npv scope).
Proof.
  unfold recalc, npv, irr, aop, cfw.
  destruct (opt_periods financeOptions) as [pers|] eqn:Hpers; cbn [bind].
  2:{ split; [split; [intros _ pers C; discriminate | reflexivity]|].
      intros scope C. discriminate. }
  destruct (nth_error pers selectedPeriod) as [selected|] eqn:Hsel; cbn [bind].
  2:{ split; [split; [intros _ l Hl; injection Hl as <-; exact Hsel | reflexivity]|].
      intros scope C. discriminate. }
  set (plan := cashflow (ld_principal loanDetails) #(ld_interval loanDetails)
                        (Some financeOptions)).
  change (sc_cashflow plan)
    with (- ld_principal loanDetails
          :: map (fun e => pe_payment e) (paymentplan plan)).
  rewrite NPV_from_first. cbn [bind].
  destruct (IRR_returns
              (- ld_principal loanDetails
               :: map (fun e => pe_payment e) (paymentplan plan))
              (Some lit_0_1)) as [v Hv].
  rewrite Hv. cbn [bind].
  split.
  - split; [discriminate|].
    intros Hnone. specialize (Hnone pers eq_refl).
    rewrite Hsel in Hnone. discriminate.
  - intros scope Hscope. cbv zeta in Hscope. injection Hscope as <-.
    cbn [scope_plan scope_irr scope_aop scope_npv].
    split; [reflexivity|]. split; [exact Hv|]. split; [reflexivity|].
    exists selected, pers. split; [reflexivity|]. split; [exact Hsel|].
    change (sc_cashflow plan)
      with (- ld_principal loanDetails
            :: map (fun e => pe_payment e) (paymentplan plan)).
    apply NPV_from_first.
Qed.

End FacadeFacts.

(** ** The further properties at concrete loans *)

Section FurtherRuns.

Local Open Scope js_scope.

(** [loanPeriods_shape] on the options the second view starts from: two
    resolved blocks, the second one ending at period 30. *)
Lemma loanPeriods_shape_witness :
  length (loanPeriods #12 view2_options #101800) = 2%nat
  /\ exists lp,
       nth_error (loanPeriods #12 view2_options #101800) 1 = Some lp
       /\ lp_interest lp = #10 / #100 / #12
       /\ lp_fee lp = #25
       /\ lp_end lp = 30%Z.
Proof.
  destruct (loanPeriods_shape #12 #101800 view2_options eq_refl) as [Hlen Hnth].
  split; [exact Hlen|].
  exact (Hnth 1%nat _ eq_refl).
Defined.

(** [plan_within_periods] for 100 repaid by a fixed payment of 60 over a
    block of 2 periods at rate 0. *)
Lemma plan_within_periods_witness :
  (Z.of_nat (length (paymentplan
                       (cashflow #100 #12
                                 (Some (one_block (block 2 #0 #60 true) false)))))
   <= total_periods [block 2 #0 #60 true])%Z.
Proof.
  apply (plan_within_periods #100 #12 (one_block (block 2 #0 #60 true) false) eq_refl).
  repeat constructor. simpl. lia.
Defined.

(** [aop_keeps_sentinel] on a cashflow without a negative entry. *)
Lemma aop_keeps_sentinel_witness :
  aop (fun x : float => x) [#100; #100; #100] None 12 = Some PrimFloat.nan.
Proof.
  apply aop_keeps_sentinel; [lia | reflexivity].
Defined.

(** [empty_plan_has_no_rate] on options without blocks. *)
Lemma empty_plan_has_no_rate_witness :
  sc_cashflow (cashflow #1000 #12 (Some no_blocks)) = [- #1000]
  /\ IRR (sc_cashflow (cashflow #1000 #12 (Some no_blocks))) None
     = Some PrimFloat.nan
  /\ ((12 <> 0)%Z ->
      aop (fun x : float => x) (sc_cashflow (cashflow #1000 #12 (Some no_blocks)))
          None 12
      = Some PrimFloat.nan).
Proof.
  exact (empty_plan_has_no_rate (fun x : float => x) #1000 #12 (Some no_blocks)
           None 12 eq_refl).
Defined.

(** The conversion of integers does not wrap at 2^63: it rounds as a
    numeric literal does. *)
Lemma of_Z_beyond_63_bits :
  Binary64.of_Z (2 ^ 63) = 0x1p63%float
  /\ Binary64.of_Z (2 ^ 63 + 2 ^ 10) = 0x1p63%float
  /\ Binary64.of_Z (2 ^ 63 + 2 ^ 10 + 1) = 0x1.0000000000001p63%float
  /\ Binary64.of_Z (10 ^ 30) = 1e30%float
  /\ Binary64.of_Z (- 10 ^ 400) = PrimFloat.neg_infinity.
Proof. repeat split; vm_compute; reflexivity. Qed.

End FurtherRuns.

(** ** The totals *)

Section TotalsFacts.

Context {num : Type} {JS : JSNumber num}.
Local Open Scope js_scope.

Lemma reduce_from_map {A : Type} (g : A -> num) (l : list A) :
  forall acc i,
    reduce_from (fun total x (_ : nat) => total + g x) acc i l
    = fold_left js_add (map g l) acc.
Proof.
  induction l as [|x l IH]; intros acc i; simpl; [reflexivity | apply IH].
Qed.

(** X16: the fields of a schedule agree with each other: the [cashflow]
    field has one entry more than [duration], and [totalpayed] is the sum,
    taken from 0 in order, of the entries of the [cashflow] field after
    the first. *)
Theorem totals_agree (p ppy : num) (options : option (Options num)) :
  length (sc_cashflow (cashflow p ppy options)) = S (duration (cashflow p ppy options))
  /\ totalpayed (cashflow p ppy options)
     = fold_left js_add (tl (sc_cashflow (cashflow p ppy options))) #0.
Proof.
  pose proof (counted_length (final_state_counted enough_fuel p ppy options)) as Hlen.
  split.
  - change (sc_cashflow (cashflow p ppy options))
      with (- p :: map (fun e => pe_payment e)
                       (ls_plan (final_state enough_fuel p ppy options))).
    change (duration (cashflow p ppy options))
      with (ls_i (final_state enough_fuel p ppy options)).
    cbn [length]. rewrite length_map, Hlen. reflexivity.
  - change (totalpayed (cashflow p ppy options))
      with (reduce_from (fun total plan (_ : nat) => total + pe_payment plan) #0 0
                        (paymentplan (cashflow p ppy options))).
    rewrite reduce_from_map. reflexivity.
Qed.

End TotalsFacts.
